(** * kuyruk: task dispatch, lifecycle signals and result retrieval

    A shallow embedding of [kuyruk/task.py] and [kuyruk/result.py].

    Python values are a small inductive type, dictionaries are [gmap]s,
    exceptions are carried by an outcome type, and everything the code does
    to the outside world (signal deliveries, the alarm, the transport, the
    logger) is appended to a trace held in an explicit world state. *)

From stdpp Require Import gmap strings list fin_maps.

Set Warnings "-register-all".
Local Open Scope string_scope.
Local Open Scope Z_scope.
Local Open Scope list_scope.

(** ** Python values *)

Inductive Value : Type :=
| VNone
| VBool (b : bool)
| VInt (z : Z)
| VStr (s : string)
| VTuple (l : list Value)
| VList (l : list Value)
| VDict (d : gmap string Value)
| VObj (cls_ : string) (attrs : gmap string Value).

(** Truth value testing, as [if x:] does it.  An instance is true unless
    its class defines [__nonzero__] or, failing that, [__len__]: in the
    attributes of an object these two entries stand for what the methods
    return. *)
Definition truthy (v : Value) : bool :=
  match v with
  | VNone => false
  | VBool b => b
  | VInt z => negb (z =? 0)
  | VStr s => negb (String.eqb s EmptyString)
  | VTuple l | VList l => match l with [] => false | _ => true end
  | VDict d => match map_to_list d with [] => false | _ => true end
  | VObj _ attrs =>
      match attrs !! "__nonzero__" with
      | Some (VBool b) => b
      | Some (VInt z) => negb (z =? 0)
      | Some _ => true
      | None =>
          match attrs !! "__len__" with
          | Some (VInt n) => negb (n =? 0)
          | _ => true
          end
      end
  end.

(** ** Exceptions *)

Inductive ExcClass : Type :=
| Exception_            (* the builtin [Exception] itself *)
| AttributeError
| IndexError
| KeyError
| TypeError
| ValueError
| OverflowError
| Timeout               (* kuyruk.exceptions.Timeout *)
| ResultTimeout         (* kuyruk.exceptions.ResultTimeout *)
| RemoteException       (* kuyruk.exceptions.RemoteException *)
| socket_timeout        (* socket.timeout, a subclass of socket.error *)
| socket_error          (* socket.error *)
| KeyboardInterrupt
| SystemExit
| UserError (name : string)        (* any other subclass of Exception *)
| UserBaseError (name : string).   (* any other class outside Exception *)

Record Exn : Type := mkExn { exc_class : ExcClass; exc_args : list Value }.

(** Modelled from the spec: [kuyruk/exceptions.py] is not among the sources.
    The spec has the deadline condition reported through the [failure]
    event, which only an [except Exception] clause can do, so [Timeout]
    (like [ResultTimeout] and [RemoteException]) derives from [Exception].
    [KeyboardInterrupt] and [SystemExit] derive from [BaseException] only. *)
Definition is_Exception (e : Exn) : bool :=
  match exc_class e with
  | KeyboardInterrupt | SystemExit | UserBaseError _ => false
  | _ => true
  end.

(** [e.errno] of an [EnvironmentError]: the first of exactly two
    constructor arguments, otherwise [None]. *)
Definition errno_of (e : Exn) : option Z :=
  match exc_args e with
  | [VInt n; _] => Some n
  | _ => None
  end.

(** [errno.EINTR] (its value on Linux). *)
Definition EINTR : Z := 4.

Inductive Outcome (A : Type) : Type :=
| Ok (a : A)
| Raise (e : Exn).
Arguments Ok {A} a.
Arguments Raise {A} e.

(** [v[key]] for a string key. *)
Definition getitem (v : Value) (key : string) : Outcome Value :=
  match v with
  | VDict d =>
      match d !! key with
      | Some x => Ok x
      | None => Raise (mkExn KeyError [VStr key])
      end
  | _ => Raise (mkExn TypeError [])
  end.

(** [type(v).__name__]; an integer beyond [sys.maxint] (here that of a
    64-bit build) is a [long], and an object is an instance of a new-style
    class. *)
Definition type_name (v : Value) : string :=
  match v with
  | VNone => "NoneType"
  | VBool _ => "bool"
  | VInt z =>
      if (-9223372036854775808 <=? z) && (z <=? 9223372036854775807)
      then "int" else "long"
  | VStr _ => "str"
  | VTuple _ => "tuple"
  | VList _ => "list"
  | VDict _ => "dict"
  | VObj c _ => c
  end.

(** The [AttributeError] of a missing attribute. *)
Definition no_attribute (v : Value) (attr : string) : Exn :=
  mkExn AttributeError
    [VStr ("'" +:+ type_name v +:+ "' object has no attribute '" +:+ attr +:+ "'")].

(** [v.attr]: the attributes of an object are those of its map. *)
Definition getattr (v : Value) (attr : string) : Outcome Value :=
  match v with
  | VObj _ attrs =>
      match attrs !! attr with
      | Some x => Ok x
      | None => Raise (no_attribute v attr)
      end
  | _ => Raise (no_attribute v attr)
  end.

(** ** The data model of task.py *)

Record PyClass : Type := { __name__ : string }.

(** [kuyruk.config], as far as a task reads it. *)
Record Kuyruk : Type := {
  kuyruk_name : string;
  EAGER : bool;
  MAX_TASK_RUN_TIME : option Z
}.

(** What one run of a wrapped function does when nothing interrupts it:
    how many seconds it needs and how it ends. *)
Record BodyRun : Type := { needs : Z; ends : Outcome Value }.

Record Function : Type := {
  f_name : string;                  (* f.__name__ *)
  f_module : string;                (* f.__module__ *)
  f_body : list Value -> gmap string Value -> BodyRun
}.

Record Task : Type := {
  f : Function;
  kuyruk : Kuyruk;
  queue : string;
  local : bool;
  eager : bool;
  retry : Z;
  max_run_time : option Z;
  cls : option PyClass;
  task_class : PyClass              (* self.__class__: Task or a subclass of it *)
}.

Definition set_cls (self : Task) (c : option PyClass) : Task :=
  {| f := f self; kuyruk := kuyruk self; queue := queue self;
     local := local self; eager := eager self; retry := retry self;
     max_run_time := max_run_time self; cls := c;
     task_class := task_class self |}.

(** [Task.__init__]: the keyword parameters left out take their defaults;
    [cls_] is the class being instantiated ([Task] or a subclass of it,
    whose [setup] the base class leaves empty); the owning type is not
    known yet. *)
Definition Task_init (cls_ : PyClass) (fn : Function) (k : Kuyruk)
    (queue_ : option string) (local_ eager_ : option bool) (retry_ : option Z)
    (max_run_time_ : option Z) : Task :=
  {| f := fn; kuyruk := k;
     queue := default "kuyruk" queue_;
     local := default false local_;
     eager := default false eager_;
     retry := default 0 retry_;
     max_run_time := max_run_time_;
     cls := None;
     task_class := cls_ |}.

(** ** Signals *)

Inductive Signal : Type :=
| task_presend | task_postsend
| task_prerun | task_postrun
| task_success | task_failure.

Inductive Sender : Type :=
| SenderTask (t : Task)
| SenderClass (c : PyClass)
| SenderKuyruk (k : Kuyruk).

Inductive Extra : Type :=
| NoExtra
| exc_info (e : Exn)
| return_value (v : Value).

(** One call [signal.send(sender, task=..., args=..., kwargs=..., **extra)]. *)
Record Emission : Type := {
  em_signal : Signal;
  em_sender : Sender;
  em_task : Task;
  em_args : list Value;
  em_kwargs : gmap string Value;
  em_extra : Extra
}.

(** ** The world *)

Inductive Event : Type :=
| Emit (e : Emission)
| Alarm (seconds : Z)                               (* signal.alarm(seconds) *)
| Call (args : list Value) (kwargs : gmap string Value)  (* the wrapped function is called *)
| LogInfo (name : string) (seconds : Z)             (* logger.info in profile *)
| ChannelEnter                                      (* with kuyruk.channel() *)
| ChannelExit
| QueueNew (name : string) (local_ : Value)         (* Queue(queue, channel, local_) *)
| QueueSend (name : string) (desc : gmap string Value).  (* queue.send(desc) *)

Definition is_transport (ev : Event) : bool :=
  match ev with
  | ChannelEnter | ChannelExit | QueueNew _ _ | QueueSend _ _ => true
  | _ => false
  end.

Record World : Type := {
  trace : list Event;
  clock : Z;          (* time(), in seconds *)
  alarm : Z;          (* seconds left on the armed alarm; 0 when there is none *)
  uuids : nat         (* how many ids uuid1() has handed out *)
}.

(** What the process finds around it. *)
Record Runtime : Type := {
  receivers : Emission -> option Exn;   (* the connected handlers: [Some e] when one raises [e] *)
  uuid_hex : nat -> string;             (* uuid1().hex of the n-th call *)
  py_str : Value -> string;             (* str() of a value that is not a string *)
  utcnow : Z -> Value;                  (* datetime.utcnow() at a clock reading *)
  gethostname : string;
  getpid : Z;
  sender_cmd : string;                  (* ' '.join(sys.argv) *)
  main_module_name : string;            (* importer.get_main_module().name *)
  channel_fails : option Exn;           (* kuyruk.channel() raising *)
  send_fails : string -> gmap string Value -> option Exn   (* queue.send raising *)
}.

(** ** Computations: state and exceptions *)

Definition M (A : Type) : Type := World -> Outcome A * World.

Definition ret {A} (a : A) : M A := fun w => (Ok a, w).

Definition raise {A} (e : Exn) : M A := fun w => (Raise e, w).

Definition bind {A B} (c : M A) (k : A -> M B) : M B :=
  fun w =>
    match c w with
    | (Ok a, w1) => k a w1
    | (Raise e, w1) => (Raise e, w1)
    end.

Notation "'let!' x ':=' c 'in' k" := (bind c (fun x => k))
  (at level 10, x name, c at level 100, k at level 200, only parsing).

Definition lift {A} (o : Outcome A) : M A := fun w => (o, w).

(** The world with more events on its trace. *)
Definition push (w : World) (evs : list Event) : World :=
  {| trace := trace w ++ evs; clock := clock w; alarm := alarm w;
     uuids := uuids w |}.

Definition log (ev : Event) : M unit := fun w => (Ok tt, push w [ev]).

(** [try: body finally: fin].  An exception of [fin] replaces the outcome
    of [body]. *)
Definition try_finally {A} (body : M A) (fin : M unit) : M A :=
  fun w =>
    match body w with
    | (r, w1) =>
        match fin w1 with
        | (Ok _, w2) => (r, w2)
        | (Raise e, w2) => (Raise e, w2)
        end
    end.

(** [try: body except Exception: handler else: orelse].  The handler sees
    the exception caught; neither clause is protected by the [try]. *)
Definition try_except_else {A B} (body : M A) (handler : Exn -> M B)
    (orelse : A -> M B) : M B :=
  fun w =>
    match body w with
    | (Ok a, w1) => orelse a w1
    | (Raise e, w1) =>
        if is_Exception e then handler e w1 else (Raise e, w1)
    end.

(** ** task.py *)

Section task.

Variable rt : Runtime.

(** [signal.send(sender, ...)]: the emission is delivered to the handlers
    connected for this signal and sender; an exception of a handler comes
    out of [send]. *)
Definition signal_send (em : Emission) : M unit :=
  let! _ := log (Emit em) in
  match receivers rt em with
  | Some e => raise e
  | None => ret tt
  end.

Definition senders (self : Task) (reverse : bool) : list Sender :=
  let senders :=
    [SenderTask self; SenderClass (task_class self); SenderKuyruk (kuyruk self)] in
  if reverse then rev senders else senders.

Fixpoint send_each (signal : Signal) (self : Task) (args : list Value)
    (kwargs : gmap string Value) (extra : Extra) (ss : list Sender) : M unit :=
  match ss with
  | [] => ret tt
  | sender :: ss' =>
      let! _ := signal_send {| em_signal := signal; em_sender := sender;
                               em_task := self; em_args := args;
                               em_kwargs := kwargs; em_extra := extra |} in
      send_each signal self args kwargs extra ss'
  end.

(** [Task.send_signal] *)
Definition send_signal (self : Task) (signal : Signal) (args : list Value)
    (kwargs : gmap string Value) (reverse : bool) (extra : Extra) : M unit :=
  send_each signal self args kwargs extra (senders self reverse).

(** [Task.module_name] *)
Definition module_name (self : Task) : string :=
  let name := f_module (f self) in
  if String.eqb name "__main__" then main_module_name rt else name.

(** [Task.class_name]: [None] when [self.cls] is not set. *)
Definition class_name (self : Task) : option string :=
  match cls self with
  | Some c => Some (__name__ c)
  | None => None
  end.

(** [Task.name] *)
Definition name (self : Task) : string :=
  match class_name self with
  | Some cn =>
      if String.eqb cn EmptyString then module_name self +:+ ":" +:+ f_name (f self)
      else module_name self +:+ ":" +:+ cn +:+ "." +:+ f_name (f self)
  | None => module_name self +:+ ":" +:+ f_name (f self)
  end.

(** Whether a number fits a C [int]. *)
Definition in_c_int (z : Z) : bool :=
  (-2147483648 <=? z) && (z <=? 2147483647).

(** The [OverflowError] of an argument that does not fit a C [int] (the
    first message is that of a number beyond a 64-bit C [long]). *)
Definition alarm_overflow (seconds : Z) : Exn :=
  mkExn OverflowError
    [VStr (if (seconds <? -9223372036854775808) || (9223372036854775807 <? seconds)
           then "Python int too large to convert to C long"
           else if seconds <? 0 then "signed integer is less than minimum"
           else "signed integer is greater than maximum")].

(** [signal.alarm(seconds)]: the argument is taken as a C [int] and handed
    to [alarm] as an [unsigned int]; a number that does not fit raises
    [OverflowError] and arms nothing. *)
Definition signal_alarm (seconds : Z) : M unit :=
  fun w =>
    if in_c_int seconds
    then (Ok tt, {| trace := trace w ++ [Alarm seconds]; clock := clock w;
                    alarm := seconds mod 4294967296; uuids := uuids w |})
    else (Raise (alarm_overflow seconds), w).

(** [time_limit]: the handler installed for SIGALRM raises [Timeout] in
    the frame that is running when the alarm goes off. *)
Definition time_limit {A} (seconds : Z) (body : M A) : M A :=
  let! _ := signal_alarm seconds in
  try_finally body (signal_alarm 0).

(** [self.f] called with the arguments.  With an alarm of [n > 0] seconds
    armed, a run that needs more than [n] seconds is cut after [n] seconds
    by [Timeout]; with no alarm the run goes to its end. *)
Definition call_f (self : Task) (args : list Value)
    (kwargs : gmap string Value) : M Value :=
  fun w =>
    let run := f_body (f self) args kwargs in
    if (0 <? alarm w) && (alarm w <? needs run)
    then (Raise (mkExn Timeout []),
          {| trace := trace w ++ [Call args kwargs];
             clock := clock w + alarm w; alarm := 0; uuids := uuids w |})
    else (ends run,
          {| trace := trace w ++ [Call args kwargs];
             clock := clock w + needs run; alarm := alarm w; uuids := uuids w |}).

(** [x or y] on numbers that may be [None]. *)
Definition num_or (x : option Z) (y : Z) : Z :=
  match x with
  | Some n => if n =? 0 then y else n
  | None => y
  end.

Definition time : M Z := fun w => (Ok (clock w), w).

(** The decorator [profile]. *)
Definition profile (fn : Task -> list Value -> gmap string Value -> M Value)
    (self : Task) (args : list Value) (kwargs : gmap string Value) : M Value :=
  let! start := time in
  let! result := fn self args kwargs in
  let! end_ := time in
  let! _ := log (LogInfo (name self) (end_ - start)) in
  ret result.

(** The function that [Task.apply] decorates.  No branch of it has a
    [return] statement: it ends by falling off its end. *)
Definition apply_undecorated (self : Task) (args : list Value)
    (kwargs : gmap string Value) : M Value :=
  let send_signal_ signal reverse extra :=
    send_signal self signal args kwargs reverse extra in
  let limit :=
    num_or (max_run_time self) (num_or (MAX_TASK_RUN_TIME (kuyruk self)) 0) in
  let! _ :=
    try_finally
      (try_except_else
         (let! _ := send_signal_ task_prerun true NoExtra in
          time_limit limit (call_f self args kwargs))
         (fun e =>
            let! _ := send_signal_ task_failure false (exc_info e) in
            raise e)
         (fun v => send_signal_ task_success false (return_value v)))
      (send_signal_ task_postrun false NoExtra) in
  ret VNone.

(** [Task.apply] *)
Definition Task_apply : Task -> list Value -> gmap string Value -> M Value :=
  profile apply_undecorated.

(** [uuid1().hex] *)
Definition uuid1_hex : M string :=
  fun w => (Ok (uuid_hex rt (uuids w)),
            {| trace := trace w; clock := clock w; alarm := alarm w;
               uuids := S (uuids w) |}).

Definition opt_str (o : option string) : Value :=
  match o with
  | Some s => VStr s
  | None => VNone
  end.

(** The [if self.cls:] block of [get_task_description]: for a class task
    the arguments become a list whose first element is the [id] of the
    object that was there. *)
Definition description_args (self : Task) (args : list Value) : Outcome Value :=
  match cls self with
  | Some _ =>
      match args with
      | [] => Raise (mkExn IndexError [VStr "list index out of range"])
      | a0 :: rest =>
          match getattr a0 "id" with
          | Ok id => Ok (VList (id :: rest))
          | Raise e => Raise e
          end
      end
  | None => Ok (VTuple args)
  end.

(** The dictionary [get_task_description] returns. *)
Definition description (self : Task) (id : string) (queue_ : string)
    (args_ : Value) (kwargs : gmap string Value) (now : Z) : gmap string Value :=
  <["id" := VStr id]>
  (<["queue" := VStr queue_]>
  (<["args" := args_]>
  (<["kwargs" := VDict kwargs]>
  (<["module" := VStr (module_name self)]>
  (<["function" := VStr (f_name (f self))]>
  (<["class" := opt_str (class_name self)]>
  (<["retry" := VInt (retry self)]>
  (<["sender_timestamp" := utcnow rt now]>
  (<["sender_hostname" := VStr (gethostname rt)]>
  (<["sender_pid" := VInt (getpid rt)]>
  (<["sender_cmd" := VStr (sender_cmd rt)]> ∅))))))))))).

(** [Task.get_task_description] *)
Definition get_task_description (self : Task) (args : list Value)
    (kwargs : gmap string Value) (queue_ : string) : M (gmap string Value) :=
  let! args_ := lift (description_args self args) in
  let! id := uuid1_hex in
  let! now := time in
  ret (description self id queue_ args_ kwargs now).

(** ["%s" % v] *)
Definition str (v : Value) : string :=
  match v with
  | VStr s => s
  | _ => py_str rt v
  end.

(** Modelled from the spec: [kuyruk/queue.py] is not among the sources.
    A queue is made of a name, a channel and a local flag; when the flag
    holds, the name of this host is appended to the queue name
    ([send_to_queue]'s docstring, and the spec's queue naming). *)
Record Queue : Type := { Queue_name : string; Queue_local : Value }.

Definition local_name (name_ : string) (local_ : Value) : string :=
  if truthy local_ then name_ +:+ "." +:+ gethostname rt else name_.

Definition Queue_init (name_ : string) (local_ : Value) : M Queue :=
  let! _ := log (QueueNew name_ local_) in
  ret {| Queue_name := local_name name_ local_; Queue_local := local_ |}.

Definition Queue_send (q : Queue) (desc : gmap string Value) : M unit :=
  let! _ := log (QueueSend (Queue_name q) desc) in
  match send_fails rt (Queue_name q) desc with
  | Some e => raise e
  | None => ret tt
  end.

(** Modelled from the spec: [Kuyruk.channel] is not among the sources.
    The channel is a scoped resource, released on every way out of the
    [with] block; acquiring it may fail. *)
Definition with_channel {A} (body : M A) : M A :=
  match channel_fails rt with
  | Some e => raise e
  | None =>
      let! _ := log ChannelEnter in
      try_finally body (log ChannelExit)
  end.

(** The first statements of [send_to_queue]: the queue name and the local
    flag the queue is made with. *)
Definition routed (self : Task) (host local_arg : Value) : string * Value :=
  let queue_ := queue self in
  let local_ := VBool (local self) in
  let local_ := match local_arg with VNone => local_ | _ => local_arg end in
  if truthy host
  then (queue self +:+ "." +:+ str host, VBool false)
  else (queue_, local_).

(** [Task.send_to_queue] *)
Definition send_to_queue (self : Task) (args : list Value)
    (kwargs : gmap string Value) (host local_arg : Value) : M Value :=
  let '(queue_, local_) := routed self host local_arg in
  let! desc :=
    with_channel
      (let! q := Queue_init queue_ local_ in
       let! desc := get_task_description self args kwargs (Queue_name q) in
       let! _ := Queue_send q desc in
       ret desc) in
  lift (getitem (VDict desc) "id").

(** ** TaskResult *)

(** The handle: [task] is set by [__init__]; [id] or [result] are set by
    [Task.__call__] and live in the instance dictionary. *)
Record TaskResult : Type := { task : Task; instance_dict : gmap string Value }.

Definition TaskResult_init (t : Task) : TaskResult :=
  {| task := t; instance_dict := ∅ |}.

Definition setattr (self : TaskResult) (attr : string) (v : Value) : TaskResult :=
  {| task := task self; instance_dict := <[attr := v]> (instance_dict self) |}.

(** [dict.pop(key, None)]: the value and the dictionary left. *)
Definition pop (d : gmap string Value) (key : string) : Value * gmap string Value :=
  (default VNone (d !! key), delete key d).

(** [Task.__call__].  The keyword dictionary is one object: what [pop]
    takes out of it is gone for everything that reads it afterwards. *)
Definition __call__ (self : Task) (args : list Value)
    (kwargs : gmap string Value) : M TaskResult :=
  let! _ := send_signal self task_presend args kwargs true NoExtra in
  let task_result := TaskResult_init self in
  let! r :=
    if eager self || EAGER (kuyruk self)
    then
      let! result := Task_apply self args kwargs in
      ret (setattr task_result "result" result, kwargs)
    else
      let '(host, kwargs1) := pop kwargs "kuyruk_host" in
      let '(local_, kwargs2) := pop kwargs1 "kuyruk_local" in
      let! id := send_to_queue self args kwargs2 host local_ in
      ret (setattr task_result "id" id, kwargs2) in
  let! _ := send_signal self task_postsend args (snd r) false NoExtra in
  ret (fst r).

(** [Task.__get__]: what attribute access through [objtype] (on the
    instance [obj], or on the class itself with [obj = None]) gives, and
    the task as the access leaves it. *)
Inductive Accessed : Type :=
| BoundCall (obj : Value)      (* MethodType(self.__call__, obj, objtype) *)
| TheTask.

Definition __get__ (self : Task) (obj : Value) (objtype : PyClass) : Task * Accessed :=
  let self := set_cls self (Some objtype) in
  (self, if truthy obj then BoundCall obj else TheTask).


End task.

(** *** Reading a TaskResult *)

(** What an attribute read gives: the task, a value of the instance
    dictionary, or something found on the class. *)
Inductive Attr : Type :=
| AttrTask (t : Task)
| AttrValue (v : Value)
| AttrOfClass (attr : string).

(** The names the class body of [TaskResult] binds, and those every
    new-style class inherits from [object]. *)
Definition TaskResult_names : list string :=
  ["__init__"; "__getattr__"; "__getitem__"; "__setitem__"; "__repr__";
   "__str__"; "__doc__"; "__module__"; "__dict__"; "__weakref__"].

Definition object_names : list string :=
  ["__class__"; "__delattr__"; "__format__"; "__getattribute__"; "__hash__";
   "__new__"; "__reduce__"; "__reduce_ex__"; "__setattr__"; "__sizeof__";
   "__subclasshook__"].

(** [TaskResult.__getattr__] *)
Definition __getattr__ (self : TaskResult) (item : string) : Outcome Attr :=
  Raise (mkExn Exception_ [VStr item]).

(** [TaskResult.__getitem__] *)
Definition __getitem__ (self : TaskResult) (item : Value) : Outcome Value :=
  Raise (mkExn Exception_ [item]).

(** [handle.attr]: Python looks the name up on the instance and its class
    and calls [__getattr__] only when that lookup finds nothing. *)
Definition read_attr (self : TaskResult) (attr : string) : Outcome Attr :=
  if String.eqb attr "task" then Ok (AttrTask (task self))
  else
    match instance_dict self !! attr with
    | Some v => Ok (AttrValue v)
    | None =>
        if bool_decide (attr ∈ TaskResult_names ++ object_names)
        then Ok (AttrOfClass attr)
        else __getattr__ self attr
    end.

(** [handle[item]] *)
Definition read_item (self : TaskResult) (item : Value) : Outcome Value :=
  __getitem__ self item.

(** ** result.py *)

(** The attributes [result] and [exception] of a [Result]; [None] while
    the attribute has not been set. *)
Record Result : Type := { result : option Value; exception : option Value }.

Definition Result_init : Result := {| result := None; exception := None |}.

(** One call of [drain_events(timeout=1)]: how long it blocked, and
    whether it returned, having handed the bodies of the messages it
    received to [_process_message], or raised. *)
Inductive Drained : Type :=
| Delivers (bodies : list string)
| Throws (e : Exn).

Record DrainStep : Type := { took : Z; drained : Drained }.

Inductive Waited : Type :=
| Returned (v : Value)
| Raised (e : Exn)
| Blocked.        (* the channel has nothing more: the call is still inside the loop *)

Section result.

(** [json.loads]; [None] when the body is not JSON. *)
Variable json_loads : string -> option Value.

(** [Result._process_message] *)
Definition _process_message (self : Result) (body : string) : Outcome Result :=
  match json_loads body with
  | None => Raise (mkExn ValueError [])
  | Some d =>
      match getitem d "result" with
      | Raise e => Raise e
      | Ok r =>
          match d with
          | VDict m =>
              Ok {| result := Some r;
                    exception := Some (default VNone (m !! "exception")) |}
          | _ => Raise (no_attribute d "get")
          end
      end
  end.

Fixpoint deliver (self : Result) (bodies : list string) : option Exn * Result :=
  match bodies with
  | [] => (None, self)
  | body :: bodies' =>
      match _process_message self body with
      | Ok self' => deliver self' bodies'
      | Raise e => (Some e, self)
      end
  end.

(** The first [try] block of the loop of [wait]; [None] stands for the
    [AttributeError] of an attribute not set yet, which the loop swallows. *)
Definition resolve (self : Result) : option (Outcome Value) :=
  match exception self with
  | None => None
  | Some exc =>
      if truthy exc then
        Some match getitem exc "type" with
             | Raise e => Raise e
             | Ok ty =>
                 match getitem exc "value" with
                 | Raise e => Raise e
                 | Ok v =>
                     match getitem exc "traceback" with
                     | Raise e => Raise e
                     | Ok tb => Raise (mkExn RemoteException [ty; v; tb])
                     end
                 end
             end
      else
        match result self with
        | Some r => Some (Ok r)
        | None => None
        end
  end.

(** The loop of [Result.wait], run against what the successive calls of
    [drain_events] do; [now] is the clock, in the unit of [timeout]. *)
Fixpoint wait_loop (start timeout : Z) (self : Result) (now : Z)
    (script : list DrainStep) : Waited * Result :=
  match resolve self with
  | Some (Ok v) => (Returned v, self)
  | Some (Raise e) => (Raised e, self)
  | None =>
      match script with
      | [] => (Blocked, self)
      | step :: script' =>
          let now' := now + took step in
          match drained step with
          | Delivers bodies =>
              match deliver self bodies with
              | (None, self') => wait_loop start timeout self' now' script'
              | (Some e, self') => (Raised e, self')
              end
          | Throws e =>
              match exc_class e with
              | socket_timeout =>
                  if timeout <? now' - start
                  then (Raised (mkExn ResultTimeout []), self)
                  else wait_loop start timeout self now' script'
              | socket_error =>
                  if bool_decide (errno_of e = Some EINTR)
                  then wait_loop start timeout self now' script'
                  else (Raised e, self)
              | _ => (Raised e, self)
              end
          end
      end
  end.

(** [Result.wait] *)
Definition wait (self : Result) (timeout : Z) (now : Z)
    (script : list DrainStep) : Waited * Result :=
  let start := now in
  wait_loop start timeout self now script.

End result.

(** ** Reading traces *)

#[global] Instance Signal_eq_dec : EqDecision Signal.
Proof. solve_decision. Defined.

(** The deliveries of one broadcast of [signal] to the senders [ss]. *)
Definition emissions (self : Task) (signal : Signal) (args : list Value)
    (kwargs : gmap string Value) (extra : Extra) (ss : list Sender) : list Event :=
  map (fun sender =>
         Emit {| em_signal := signal; em_sender := sender; em_task := self;
                 em_args := args; em_kwargs := kwargs; em_extra := extra |}) ss.

(** The senders [signal] was delivered to, in the order of the trace. *)
Fixpoint fired (signal : Signal) (tr : list Event) : list Sender :=
  match tr with
  | [] => []
  | Emit em :: tr' =>
      if bool_decide (em_signal em = signal)
      then em_sender em :: fired signal tr'
      else fired signal tr'
  | _ :: tr' => fired signal tr'
  end.

(** [c] only ever extends the trace, by events among which [signal] is
    not delivered. *)
Definition silent {A} (signal : Signal) (c : M A) : Prop :=
  forall w, exists new,
    trace (snd (c w)) = trace w ++ new /\ fired signal new = [].

(** The limit [Task.apply] runs the wrapped function under. *)
Definition limit_of (self : Task) : Z :=
  num_or (max_run_time self) (num_or (MAX_TASK_RUN_TIME (kuyruk self)) 0).

(** How the wrapped function ends with an alarm of [armed] seconds armed
    ([0]: none). *)
Definition cut_outcome (self : Task) (args : list Value)
    (kwargs : gmap string Value) (armed : Z) : Outcome Value :=
  let run := f_body (f self) args kwargs in
  if (0 <? armed) && (armed <? needs run)
  then Raise (mkExn Timeout [])
  else ends run.

(** How the block under [time_limit(limit)] ends in [Task.apply]: with the
    error of [signal.alarm] when the limit cannot be armed, and as the
    wrapped function ends under that alarm otherwise. *)
Definition body_outcome (self : Task) (args : list Value)
    (kwargs : gmap string Value) (limit : Z) : Outcome Value :=
  if in_c_int limit
  then cut_outcome self args kwargs (limit mod 4294967296)
  else Raise (alarm_overflow limit).

(** What that block puts on the trace: arming the alarm, the call, and
    switching the alarm off; nothing when the limit cannot be armed. *)
Definition limit_events (self : Task) (args : list Value)
    (kwargs : gmap string Value) : list Event :=
  if in_c_int (limit_of self)
  then [Alarm (limit_of self); Call args kwargs; Alarm 0]
  else [].

(** What [Task.apply] gives back. *)
Definition apply_result (self : Task) (args : list Value)
    (kwargs : gmap string Value) : Outcome Value :=
  match body_outcome self args kwargs (limit_of self) with
  | Ok _ => Ok VNone
  | Raise e => Raise e
  end.

(** What [Task.apply] adds to the trace when no handler raises. *)
Definition apply_events (rt : Runtime) (self : Task) (args : list Value)
    (kwargs : gmap string Value) : list Event :=
  let fwd := senders self false in
  emissions self task_prerun args kwargs NoExtra (senders self true)
  ++ limit_events self args kwargs
  ++ match body_outcome self args kwargs (limit_of self) with
     | Ok v =>
         emissions self task_success args kwargs (return_value v) fwd
         ++ emissions self task_postrun args kwargs NoExtra fwd
         ++ [LogInfo (name rt self) (needs (f_body (f self) args kwargs))]
     | Raise e =>
         (if is_Exception e
          then emissions self task_failure args kwargs (exc_info e) fwd
          else [])
         ++ emissions self task_postrun args kwargs NoExtra fwd
     end.

(** A stretch of calls of [drain_events] during which nothing ends the
    wait that began at [start]: each call either returns without a message
    for the waiter, or times out while the time waited is still within
    [timeout], or is interrupted ([EINTR]). *)
Fixpoint idle (start timeout now : Z) (steps : list DrainStep) : Prop :=
  match steps with
  | [] => True
  | step :: steps' =>
      match drained step with
      | Delivers bodies => bodies = []
      | Throws e =>
          match exc_class e with
          | socket_timeout => now + took step - start <= timeout
          | socket_error => errno_of e = Some EINTR
          | _ => False
          end
      end
      /\ idle start timeout (now + took step) steps'
  end.

(** The time a stretch of calls takes. *)
Definition total (steps : list DrainStep) : Z :=
  foldr (fun step t => took step + t) 0 steps.

(** The keys of a descriptor. *)
Definition description_keys : gset string :=
  list_to_set ["id"; "queue"; "args"; "kwargs"; "module"; "function"; "class";
               "retry"; "sender_timestamp"; "sender_hostname"; "sender_pid";
               "sender_cmd"].

(** The events of a queue, as opposed to those of the channel. *)
Definition is_queue_event (ev : Event) : Prop :=
  match ev with
  | QueueNew _ _ | QueueSend _ _ => True
  | _ => False
  end.

(** ** A small application, for concrete runs *)

Module App.

Definition rt : Runtime :=
  {| receivers := fun _ => None;
     uuid_hex := fun n => match n with O => "id-0" | _ => "id-n" end;
     py_str := fun _ => "<object>";
     utcnow := fun now => VInt now;
     gethostname := "box";
     getpid := 4242;
     sender_cmd := "app.py";
     main_module_name := "app";
     channel_fails := None;
     send_fails := fun _ _ => None |}.

Definition the_kuyruk : Kuyruk :=
  {| kuyruk_name := "kuyruk"; EAGER := false; MAX_TASK_RUN_TIME := None |}.

Definition Task_ : PyClass := {| __name__ := "Task" |}.
Definition Cat : PyClass := {| __name__ := "Cat" |}.
Definition Lion : PyClass := {| __name__ := "Lion" |}.

(** A function that returns 42 whatever it is given. *)
Definition answer : Function :=
  {| f_name := "answer"; f_module := "tasks";
     f_body := fun _ _ => {| needs := 0; ends := Ok (VInt 42) |} |}.

(** A function that sleeps for ten seconds. *)
Definition sleepy : Function :=
  {| f_name := "sleepy"; f_module := "tasks";
     f_body := fun _ _ => {| needs := 10; ends := Ok VNone |} |}.

Definition task_of (fn : Function) (eager_ : bool) (cls_ : option PyClass) : Task :=
  {| f := fn; kuyruk := the_kuyruk; queue := "kuyruk"; local := false;
     eager := eager_; retry := 0; max_run_time := None; cls := cls_;
     task_class := Task_ |}.

(** [sleepy] as a task that may run for one second. *)
Definition hurried : Task :=
  {| f := sleepy; kuyruk := the_kuyruk; queue := "kuyruk"; local := false;
     eager := true; retry := 0; max_run_time := Some 1; cls := None;
     task_class := Task_ |}.

Definition w0 : World := {| trace := []; clock := 0; alarm := 0; uuids := 0 |}.

Definition felix : Value := VObj "Cat" {[ "id" := VInt 7 ]}.

(** A decoder that knows two replies. *)
Definition json_loads (body : string) : option Value :=
  if String.eqb body "fine" then Some (VDict {[ "result" := VInt 42 ]})
  else if String.eqb body "bad" then
    Some (VDict (<["result" := VNone]>
                   {[ "exception" :=
                        VDict (<["type" := VStr "ValueError"]>
                              (<["value" := VStr "bad"]>
                               {[ "traceback" := VStr "..." ]})) ]}))
  else None.

Definition slice_timeout : DrainStep :=
  {| took := 1; drained := Throws (mkExn socket_timeout [VStr "timed out"]) |}.

Definition interrupted : DrainStep :=
  {| took := 0;
     drained := Throws (mkExn socket_error [VInt EINTR; VStr "Interrupted system call"]) |}.

Definition reset : DrainStep :=
  {| took := 0;
     drained := Throws (mkExn socket_error [VInt 104; VStr "Connection reset by peer"]) |}.

Definition boom : Exn := mkExn (UserError "Boom") [VStr "boom"].

(** The runtime of [rt], with handlers of [signal] that raise [e]. *)
Definition rt_raising (signal : Signal) (e : Exn) : Runtime :=
  {| receivers := fun em =>
       if bool_decide (em_signal em = signal) then Some e else None;
     uuid_hex := uuid_hex App.rt;
     py_str := py_str App.rt;
     utcnow := utcnow App.rt;
     gethostname := gethostname App.rt;
     getpid := getpid App.rt;
     sender_cmd := sender_cmd App.rt;
     main_module_name := main_module_name App.rt;
     channel_fails := None;
     send_fails := fun _ _ => None |}.



(** A function that raises [ValueError]. *)
Definition failing : Function :=
  {| f_name := "failing"; f_module := "tasks";
     f_body := fun _ _ =>
       {| needs := 0; ends := Raise (mkExn ValueError [VStr "no"]) |} |}.

(** A decoder for replies that are not as they should be. *)
Definition json_loads_odd (body : string) : option Value :=
  if String.eqb body "no-result" then
    Some (VDict {[ "exception" :=
                     VDict (<["type" := VStr "ValueError"]>
                           (<["value" := VStr "bad"]>
                            {[ "traceback" := VStr "..." ]})) ]})
  else if String.eqb body "empty-exception" then
    Some (VDict (<["result" := VInt 1]> {[ "exception" := VDict ∅ ]}))
  else if String.eqb body "fine" then Some (VDict {[ "result" := VInt 42 ]})
  else None.

End App.

(** * Facts *)

(** ** Worlds and broadcasts *)

Lemma push_push (w : World) (a b : list Event) :
  push (push w a) b = push w (a ++ b).
Proof. unfold push; simpl. by rewrite app_assoc. Qed.

Lemma trace_push (w : World) (a : list Event) : trace (push w a) = trace w ++ a.
Proof. reflexivity. Qed.

Lemma fired_app (signal : Signal) (a b : list Event) :
  fired signal (a ++ b) = fired signal a ++ fired signal b.
Proof.
  induction a as [|ev a IH]; simpl; [done|].
  destruct ev; try done.
  case_bool_decide; simpl; by rewrite IH.
Qed.

Lemma fired_emissions_same self signal args kwargs extra ss :
  fired signal (emissions self signal args kwargs extra ss) = ss.
Proof.
  induction ss as [|s ss IH]; simpl; [done|].
  rewrite bool_decide_eq_true_2; [by rewrite IH | done].
Qed.


Section quiet_receivers.

Variable rt : Runtime.
Hypothesis quiet : forall em, receivers rt em = None.

Lemma send_each_quiet signal self args kwargs extra ss w :
  send_each rt signal self args kwargs extra ss w
  = (Ok tt, push w (emissions self signal args kwargs extra ss)).
Proof.
  revert w. induction ss as [|s ss IH]; intros w.
  - destruct w; unfold push; simpl. by rewrite app_nil_r.
  - simpl. unfold bind, signal_send, bind, log. rewrite quiet. simpl.
    rewrite IH, push_push. done.
Qed.

Lemma send_signal_quiet self signal args kwargs reverse extra w :
  send_signal rt self signal args kwargs reverse extra w
  = (Ok tt, push w (emissions self signal args kwargs extra (senders self reverse))).
Proof. apply send_each_quiet. Qed.

End quiet_receivers.

(** C6 (as amended): the chain of a broadcast is the task, the class of the
    task object itself ([self.__class__], not the owning type [cls]) and
    the kuyruk instance; reversed broadcasts (the pre-events) deliver in
    the order kuyruk, class, task, the others in the order task, class,
    kuyruk, once to each. *)
Theorem send_signal_sender_chain (rt : Runtime) (self : Task) (signal : Signal)
    (args : list Value) (kwargs : gmap string Value) (extra : Extra) (w : World) :
  (forall em, receivers rt em = None) ->
  senders self false
    = [SenderTask self; SenderClass (task_class self); SenderKuyruk (kuyruk self)]
  /\ senders self true
    = [SenderKuyruk (kuyruk self); SenderClass (task_class self); SenderTask self]
  /\ forall reverse,
      exists w',
        send_signal rt self signal args kwargs reverse extra w = (Ok tt, w')
        /\ trace w' = trace w
             ++ emissions self signal args kwargs extra (senders self reverse)
        /\ fired signal (emissions self signal args kwargs extra (senders self reverse))
           = senders self reverse.
Proof.
  intros quiet. repeat split.
  intros reverse. eexists. split; [by apply send_signal_quiet|].
  split; [done | apply fired_emissions_same].
Qed.

Lemma send_signal_sender_chain_witness :
  exists w',
    send_signal App.rt (App.task_of App.answer false (Some App.Cat))
      task_prerun [] ∅ true NoExtra App.w0 = (Ok tt, w')
    /\ fired task_prerun (trace w')
       = [SenderKuyruk App.the_kuyruk; SenderClass App.Task_;
          SenderTask (App.task_of App.answer false (Some App.Cat))].
Proof.
  destruct (send_signal_sender_chain App.rt
              (App.task_of App.answer false (Some App.Cat))
              task_prerun [] ∅ NoExtra App.w0 (fun _ => eq_refl))
    as (_ & _ & H).
  destruct (H true) as (w' & Hrun & Htr & Hfired).
  exists w'. split; [exact Hrun|]. rewrite Htr. exact Hfired.
Defined.

(** C6 (as stated) fails: for a task whose owning type is [Cat], the
    second sender of the chain is the class [Task], not [Cat]. *)
Lemma sender_chain_owning_type_counterexample :
  ~ (forall (self : Task) (c : PyClass),
        cls self = Some c ->
        senders self false
        = [SenderTask self; SenderClass c; SenderKuyruk (kuyruk self)]).
Proof.
  intros H.
  specialize (H (App.task_of App.answer false (Some App.Cat)) App.Cat eq_refl).
  vm_compute in H. discriminate H.
Qed.

(** ** What a computation adds to the trace *)

Section silent_facts.

Context {A B : Type} (signal : Signal).

Lemma silent_ret (a : A) : silent signal (ret a).
Proof. intros w. exists []. by rewrite app_nil_r. Qed.





End silent_facts.

Section any_receivers.

Variable rt : Runtime.







End any_receivers.

(** ** Task.apply *)

Section apply_facts.

Variable rt : Runtime.
Hypothesis quiet : forall em, receivers rt em = None.

(** The run of [Task.apply] when no handler raises. *)
Lemma apply_quiet self args kwargs w :
  exists w',
    Task_apply rt self args kwargs w = (apply_result self args kwargs, w')
    /\ trace w' = trace w ++ apply_events rt self args kwargs.
Proof.
  unfold Task_apply, profile, apply_undecorated, time_limit, bind, time,
    try_finally, try_except_else, apply_result, apply_events, limit_events.
  fold (limit_of self).
  rewrite send_signal_quiet by done.
  unfold signal_alarm, call_f, body_outcome, cut_outcome. simpl.
  destruct (in_c_int (limit_of self)) eqn:Hfit; simpl;
    [destruct ((0 <? limit_of self mod 4294967296)
               && (limit_of self mod 4294967296 <? needs (f_body (f self) args kwargs)))
       eqn:Hcut; simpl;
     [|destruct (ends (f_body (f self) args kwargs)) as [v|e] eqn:Hends; simpl;
       [|destruct (is_Exception e) eqn:Hexc; simpl]]|];
    repeat (rewrite send_signal_quiet by done; simpl);
    (eexists; split; [reflexivity|]; simpl;
     rewrite ?Z.add_simpl_l, <- ?app_assoc; reflexivity).
Qed.

End apply_facts.




(** ** The eager path of Task.__call__ *)

Section call_eager.

Variable rt : Runtime.
Hypothesis quiet : forall em, receivers rt em = None.

(** An eager call: the handle's [result] is what [Task.apply] gave back,
    and nothing of the transport is on the trace. *)
Lemma call_eager_quiet self args kwargs w :
  eager self || EAGER (kuyruk self) = true ->
  exists r w',
    __call__ rt self args kwargs w = (r, w')
    /\ trace w' = trace w
         ++ emissions self task_presend args kwargs NoExtra (senders self true)
         ++ apply_events rt self args kwargs
         ++ match apply_result self args kwargs with
            | Ok _ => emissions self task_postsend args kwargs NoExtra (senders self false)
            | Raise _ => []
            end
    /\ r = match apply_result self args kwargs with
           | Ok v => Ok (setattr (TaskResult_init self) "result" v)
           | Raise e => Raise e
           end.
Proof.
  intros Heager. unfold __call__, bind. rewrite Heager.
  rewrite send_signal_quiet by done.
  destruct (apply_quiet rt quiet self args kwargs
              (push w (emissions self task_presend args kwargs NoExtra (senders self true))))
    as (w1 & Hrun & Htr).
  rewrite Hrun. destruct (apply_result self args kwargs) as [v|e]; cbn [ret fst snd].
  - rewrite send_signal_quiet by done. do 2 eexists.
    split; [reflexivity|]. cbn [trace push snd]. rewrite Htr. cbn [trace push].
    split; [by rewrite <- !app_assoc | done].
  - do 2 eexists. split; [reflexivity|]. rewrite Htr. cbn [trace push].
    split; [by rewrite app_nil_r, <- !app_assoc | done].
Qed.

Lemma apply_events_no_transport self args kwargs :
  filter (fun ev => is_transport ev = true) (apply_events rt self args kwargs) = [].
Proof.
  unfold apply_events, limit_events.
  destruct (in_c_int (limit_of self));
    (destruct (body_outcome self args kwargs (limit_of self)) as [v|e];
     [|destruct (is_Exception e)]; reflexivity).
Qed.

(** The result stored by an eager call is [None], whatever the wrapped
    function returned. *)
Lemma call_eager_stores_None self args kwargs w v :
  eager self || EAGER (kuyruk self) = true ->
  body_outcome self args kwargs (limit_of self) = Ok v ->
  exists h w',
    __call__ rt self args kwargs w = (Ok h, w')
    /\ instance_dict h !! "result" = Some VNone.
Proof.
  intros Heager Hbody.
  destruct (call_eager_quiet self args kwargs w Heager) as (r & w' & Hrun & _ & Hr).
  unfold apply_result in Hr. rewrite Hbody in Hr. subst r.
  do 2 eexists. split; [exact Hrun|]. simpl. apply lookup_insert_eq.
Qed.

End call_eager.

(** C1 (at the failing input): the eager task [answer], whose function
    returns 42, is called; the transport is not touched, but the [result]
    of the handle is [None]. *)
Theorem eager_call_result_is_None :
  exists h w',
    __call__ App.rt (App.task_of App.answer true None) [] ∅ App.w0 = (Ok h, w')
    /\ body_outcome (App.task_of App.answer true None) [] ∅
         (limit_of (App.task_of App.answer true None)) = Ok (VInt 42)
    /\ filter (fun ev => is_transport ev = true) (trace w') = []
    /\ instance_dict h !! "result" = Some VNone.
Proof.
  do 2 eexists. split; [vm_compute; reflexivity|].
  repeat split; vm_compute; reflexivity.
Qed.

(** ** The queued path *)

Section queued_facts.

Variable rt : Runtime.

Lemma get_task_description_run self args kwargs q w :
  get_task_description rt self args kwargs q w
  = match description_args self args with
    | Ok a =>
        (Ok (description rt self (uuid_hex rt (uuids w)) q a kwargs (clock w)),
         {| trace := trace w; clock := clock w; alarm := alarm w;
            uuids := S (uuids w) |})
    | Raise e => (Raise e, w)
    end.
Proof.
  unfold get_task_description, bind, lift.
  destruct (description_args self args); reflexivity.
Qed.

Lemma description_id self id q a kwargs now :
  description rt self id q a kwargs now !! "id" = Some (VStr id).
Proof. reflexivity. Qed.

Lemma description_queue self id q a kwargs now :
  description rt self id q a kwargs now !! "queue" = Some (VStr q).
Proof. reflexivity. Qed.

Lemma description_args_field self id q a kwargs now :
  description rt self id q a kwargs now !! "args" = Some a.
Proof. reflexivity. Qed.

Lemma description_kwargs self id q a kwargs now :
  description rt self id q a kwargs now !! "kwargs" = Some (VDict kwargs).
Proof. reflexivity. Qed.

Lemma description_class self id q a kwargs now :
  description rt self id q a kwargs now !! "class" = Some (opt_str (class_name self)).
Proof. reflexivity. Qed.

(** What [send_to_queue] does once the channel is acquired. *)
Lemma send_to_queue_run self args kwargs host local_arg w :
  channel_fails rt = None ->
  let n := fst (routed rt self host local_arg) in
  let l := snd (routed rt self host local_arg) in
  let qn := local_name rt n l in
  send_to_queue rt self args kwargs host local_arg w
  = match description_args self args with
    | Raise e => (Raise e, push w [ChannelEnter; QueueNew n l; ChannelExit])
    | Ok a =>
        let id := uuid_hex rt (uuids w) in
        let desc := description rt self id qn a kwargs (clock w) in
        let w' := {| trace := trace w
                         ++ [ChannelEnter; QueueNew n l; QueueSend qn desc; ChannelExit];
                     clock := clock w; alarm := alarm w; uuids := S (uuids w) |} in
        match send_fails rt qn desc with
        | Some e => (Raise e, w')
        | None => (Ok (VStr id), w')
        end
    end.
Proof.
  intros Hchan n l qn. unfold send_to_queue.
  destruct (routed rt self host local_arg) as [n' l'] eqn:Hrouted.
  subst n l qn. simpl.
  unfold with_channel, bind, try_finally, Queue_init, Queue_send, bind, log.
  rewrite Hchan. simpl. rewrite get_task_description_run.
  destruct (description_args self args) as [a|e]; simpl.
  - destruct (send_fails rt _ _) as [e|]; simpl.
    + unfold push; simpl. by rewrite <- !app_assoc.
    + unfold lift, getitem, push; simpl. rewrite description_id.
      by rewrite <- !app_assoc.
  - unfold push; simpl. by rewrite <- !app_assoc.
Qed.

End queued_facts.

(** C5: the queue of a queued call.  A host given for the call (one that
    counts as true) makes the queue ["<queue>.<host>"] with the local flag
    off, whatever [local] says: the descriptor is sent to, and names, that
    queue.  Without a host the queue name is the task's, and a [local]
    given for the call replaces the task's own flag. *)
Theorem send_to_queue_routing (rt : Runtime) (self : Task) (args : list Value)
    (kwargs : gmap string Value) (host local_arg : Value) (w : World) :
  channel_fails rt = None ->
  exists r w' rest,
    send_to_queue rt self args kwargs host local_arg w = (r, w')
    /\ trace w' = trace w
         ++ ChannelEnter
            :: QueueNew (fst (routed rt self host local_arg))
                        (snd (routed rt self host local_arg)) :: rest
    /\ (truthy host = true ->
        routed rt self host local_arg
          = (queue self +:+ "." +:+ str rt host, VBool false)
        /\ (forall h, host = VStr h -> str rt host = h)
        /\ forall n desc,
            QueueSend n desc ∈ rest ->
            n = queue self +:+ "." +:+ str rt host
            /\ desc !! "queue" = Some (VStr n))
    /\ (truthy host = false -> local_arg <> VNone ->
        routed rt self host local_arg = (queue self, local_arg))
    /\ (truthy host = false -> local_arg = VNone ->
        routed rt self host local_arg = (queue self, VBool (local self))).
Proof.
  intros Hchan. rewrite send_to_queue_run by done.
  set (n := fst (routed rt self host local_arg)).
  set (l := snd (routed rt self host local_arg)).
  assert (Hhost : truthy host = true ->
            routed rt self host local_arg
            = (queue self +:+ "." +:+ str rt host, VBool false)).
  { intros Ht. unfold routed. by rewrite Ht. }
  assert (Hrest : forall rest : list Event,
            (forall n' desc, QueueSend n' desc ∈ rest ->
               n' = local_name rt n l /\ desc !! "queue" = Some (VStr n')) ->
            (truthy host = true ->
             routed rt self host local_arg
               = (queue self +:+ "." +:+ str rt host, VBool false)
             /\ (forall h, host = VStr h -> str rt host = h)
             /\ forall n' desc,
                 QueueSend n' desc ∈ rest ->
                 n' = queue self +:+ "." +:+ str rt host
                 /\ desc !! "queue" = Some (VStr n'))
            /\ (truthy host = false -> local_arg <> VNone ->
                routed rt self host local_arg = (queue self, local_arg))
            /\ (truthy host = false -> local_arg = VNone ->
                routed rt self host local_arg = (queue self, VBool (local self)))).
  { intros rest Hsend. split; [|split].
    - intros Ht. split; [by apply Hhost|]. split; [by intros h ->|].
      intros n' desc Hin. destruct (Hsend n' desc Hin) as [Hn Hq].
      subst n l. rewrite (Hhost Ht) in Hn. simpl in Hn. by subst n'.
    - intros Hf Hl. unfold routed. rewrite Hf. by destruct local_arg.
    - intros Hf ->. unfold routed. by rewrite Hf. }
  destruct (description_args self args) as [a|e]; simpl.
  - destruct (send_fails rt _ _) as [e|]; simpl;
      (do 3 eexists; split; [reflexivity|]; split; [simpl; reflexivity|];
       apply Hrest; intros n' desc Hin;
       apply elem_of_cons in Hin as [Heq|Hin];
       [injection Heq as -> ->; split; [done | apply description_queue]
       |apply list_elem_of_singleton in Hin; discriminate]).
  - do 3 eexists. split; [reflexivity|]. split; [simpl; reflexivity|].
    apply Hrest. intros n' desc Hin.
    apply list_elem_of_singleton in Hin; discriminate.
Qed.

Lemma send_to_queue_routing_witness :
  exists r w' rest,
    send_to_queue App.rt (App.task_of App.answer false None) [] ∅
      (VStr "h") (VBool true) App.w0 = (r, w')
    /\ trace w' = ChannelEnter :: QueueNew "kuyruk.h" (VBool false) :: rest.
Proof.
  destruct (send_to_queue_routing App.rt (App.task_of App.answer false None)
              [] ∅ (VStr "h") (VBool true) App.w0 eq_refl)
    as (r & w' & rest & Hrun & Htr & Hhost & _).
  exists r, w', rest. split; [exact Hrun|].
  destruct (Hhost eq_refl) as (Hrouted & _). rewrite Hrouted in Htr.
  exact Htr.
Defined.

(** ** The descriptor *)

(** C9 (as amended): in every descriptor built for a task whose owning
    type is set, the first positional argument has been replaced by its
    [id] attribute and [class] holds the name of the owning type; for a
    task without owning type the descriptor is always built, carries the
    arguments as they are, and still has the key [class], holding [None]. *)
Theorem description_class_and_first_argument (rt : Runtime) (self : Task)
    (args : list Value) (kwargs : gmap string Value) (q : string) (w : World) :
  (forall c desc w',
      cls self = Some c ->
      get_task_description rt self args kwargs q w = (Ok desc, w') ->
      exists a0 rest id,
        args = a0 :: rest
        /\ getattr a0 "id" = Ok id
        /\ desc !! "args" = Some (VList (id :: rest))
        /\ desc !! "class" = Some (VStr (__name__ c)))
  /\ (cls self = None ->
      exists desc w',
        get_task_description rt self args kwargs q w = (Ok desc, w')
        /\ desc !! "args" = Some (VTuple args)
        /\ desc !! "class" = Some VNone).
Proof.
  split.
  - intros c desc w' Hcls. rewrite get_task_description_run.
    unfold description_args. rewrite Hcls.
    destruct args as [|a0 rest]; [discriminate|].
    destruct (getattr a0 "id") as [id|e] eqn:Hid; [|discriminate].
    intros [= <- _]. exists a0, rest, id.
    rewrite description_args_field, description_class.
    unfold class_name. rewrite Hcls. done.
  - intros Hcls. rewrite get_task_description_run.
    unfold description_args. rewrite Hcls. do 2 eexists.
    split; [reflexivity|].
    rewrite description_args_field, description_class.
    unfold class_name. rewrite Hcls. done.
Qed.

Lemma description_class_and_first_argument_witness :
  exists desc w',
    get_task_description App.rt (App.task_of App.answer false (Some App.Cat))
      [App.felix; VInt 1] ∅ "kuyruk" App.w0 = (Ok desc, w')
    /\ desc !! "args" = Some (VList [VInt 7; VInt 1])
    /\ desc !! "class" = Some (VStr "Cat").
Proof.
  assert (Hrun : get_task_description App.rt
                   (App.task_of App.answer false (Some App.Cat))
                   [App.felix; VInt 1] ∅ "kuyruk" App.w0
                 = (Ok (description App.rt (App.task_of App.answer false (Some App.Cat))
                          "id-0" "kuyruk" (VList [VInt 7; VInt 1]) ∅ 0),
                    {| trace := []; clock := 0; alarm := 0; uuids := 1 |}))
    by (rewrite get_task_description_run; reflexivity).
  destruct (proj1 (description_class_and_first_argument App.rt
                     (App.task_of App.answer false (Some App.Cat))
                     [App.felix; VInt 1] ∅ "kuyruk" App.w0)
              App.Cat _ _ eq_refl Hrun)
    as (a0 & rest & id & Hargs & Hid & Ha & Hc).
  eexists _, _. split; [exact Hrun|].
  injection Hargs as <- <-. injection Hid as <-.
  split; [exact Ha | exact Hc].
Defined.

(** C9 (as stated) fails: the descriptor of a task without owning type
    does have the key [class]. *)
Lemma description_class_absent_counterexample :
  ~ (forall (rt : Runtime) (self : Task) (args : list Value)
       (kwargs : gmap string Value) (q : string) (w : World)
       (desc : gmap string Value) (w' : World),
        cls self = None ->
        get_task_description rt self args kwargs q w = (Ok desc, w') ->
        desc !! "class" = None).
Proof.
  intros H.
  assert (Hrun : get_task_description App.rt (App.task_of App.answer false None)
                   [] ∅ "kuyruk" App.w0
                 = (Ok (description App.rt (App.task_of App.answer false None)
                          "id-0" "kuyruk" (VTuple []) ∅ 0),
                    {| trace := []; clock := 0; alarm := 0; uuids := 1 |}))
    by (rewrite get_task_description_run; reflexivity).
  specialize (H App.rt (App.task_of App.answer false None) [] ∅ "kuyruk"
                App.w0 _ _ eq_refl Hrun).
  rewrite description_class in H. discriminate H.
Qed.

(** ** The routing keywords *)

Arguments description : simpl never.

(** C10: an eager call hands the keyword arguments to the wrapped function
    as they came, [kuyruk_host] and [kuyruk_local] included (the function
    is called whenever the alarm for its limit can be armed).  A queued call
    reads the two from the keyword arguments to route the message and
    takes them out before the descriptor is built: the descriptor and the
    [task_postsend] handlers get the keyword arguments without them. *)
Theorem call_routing_kwargs (rt : Runtime) (self : Task) (args : list Value)
    (kwargs : gmap string Value) (w : World) :
  (forall em, receivers rt em = None) ->
  let host := default VNone (kwargs !! "kuyruk_host") in
  let local_ := default VNone (kwargs !! "kuyruk_local") in
  let kwargs' := delete "kuyruk_local" (delete "kuyruk_host" kwargs) in
  let presend := emissions self task_presend args kwargs NoExtra (senders self true) in
  (eager self || EAGER (kuyruk self) = true ->
   exists r w' rest,
     __call__ rt self args kwargs w = (r, w')
     /\ trace w' = trace w ++ presend ++ apply_events rt self args kwargs ++ rest
     /\ (in_c_int (limit_of self) = true ->
         Call args kwargs ∈ apply_events rt self args kwargs)
     /\ (forall a k, Call a k ∈ apply_events rt self args kwargs ->
         a = args /\ k = kwargs)
     /\ (rest = []
         \/ rest = emissions self task_postsend args kwargs NoExtra (senders self false)))
  /\ (eager self || EAGER (kuyruk self) = false ->
      channel_fails rt = None ->
      exists r w' sent rest,
        __call__ rt self args kwargs w = (r, w')
        /\ trace w' = trace w ++ presend
             ++ [ChannelEnter;
                 QueueNew (fst (routed rt self host local_))
                          (snd (routed rt self host local_))]
             ++ sent ++ [ChannelExit] ++ rest
        /\ (sent = []
            \/ exists n id a now,
                 sent = [QueueSend n (description rt self id n a kwargs' now)])
        /\ (rest = []
            \/ rest = emissions self task_postsend args kwargs' NoExtra
                        (senders self false))
        /\ (forall a,
              description_args self args = Ok a ->
              (forall n d, send_fails rt n d = None) ->
              sent <> [] /\ rest <> []
              /\ exists id, r = Ok (setattr (TaskResult_init self) "id" id))).
Proof.
  intros quiet host local_ kwargs' presend. split.
  - intros Heager.
    destruct (call_eager_quiet rt quiet self args kwargs w Heager)
      as (r & w' & Hrun & Htr & _).
    exists r, w'. eexists. split; [exact Hrun|]. split; [exact Htr|].
    unfold apply_events, limit_events.
    split; [|split].
    + intros ->. rewrite !elem_of_app. right. left. rewrite !elem_of_cons. auto.
    + intros a k Hin. rewrite !elem_of_app in Hin.
      assert (Hno : forall sig extra ss,
                 Call a k ∈ emissions self sig args kwargs extra ss -> False).
      { intros sig extra ss. unfold emissions. rewrite list_elem_of_fmap.
        by intros (? & ? & ?). }
      destruct Hin as [Hin|[Hin|Hin]].
      * by apply Hno in Hin.
      * destruct (in_c_int (limit_of self)); [|by apply elem_of_nil in Hin].
        rewrite !elem_of_cons, elem_of_nil in Hin.
        destruct Hin as [?|[Heq|[?|[]]]]; try discriminate.
        by injection Heq as -> ->.
      * exfalso.
        destruct (body_outcome self args kwargs (limit_of self)) as [v|e];
          [|destruct (is_Exception e)];
          rewrite ?elem_of_app, ?list_elem_of_singleton, ?elem_of_nil in Hin;
          intuition (try discriminate; eauto).
    + destruct (apply_result self args kwargs); auto.
  - intros Heager Hchan. unfold __call__, bind. rewrite Heager.
    rewrite send_signal_quiet by done. unfold pop. simpl.
    rewrite lookup_delete_ne by done. fold host local_ kwargs'.
    rewrite send_to_queue_run by done. simpl.
    destruct (description_args self args) as [a|e]; simpl.
    + destruct (send_fails rt _ _) as [e|] eqn:Hsend; simpl.
      * eexists _, _, [QueueSend _ _], []. split; [reflexivity|].
        split; [simpl; by rewrite <- !app_assoc|].
        split; [right; by do 4 eexists|]. split; [by left|].
        intros a' _ Hall. rewrite Hall in Hsend. discriminate.
      * rewrite send_signal_quiet by done.
        eexists _, _, [QueueSend _ _], _. split; [reflexivity|].
        split; [simpl; rewrite <- !app_assoc; simpl; reflexivity|].
        split; [right; by do 4 eexists|]. split; [by right|].
        intros _ _ _. split; [done|]. split; [done|]. by eexists.
    + eexists _, _, [], []. split; [reflexivity|].
      split; [simpl; by rewrite <- !app_assoc|].
      split; [by left|]. split; [by left|]. intros a' [=].
Qed.

Lemma call_routing_kwargs_witness :
  exists r w' id,
    __call__ App.rt (App.task_of App.answer false None) [VInt 1]
      (<["kuyruk_host" := VStr "h"]> (<["n" := VInt 2]> ∅)) App.w0 = (r, w')
    /\ r = Ok (setattr (TaskResult_init (App.task_of App.answer false None)) "id" id).
Proof.
  destruct (proj2 (call_routing_kwargs App.rt (App.task_of App.answer false None)
                     [VInt 1] (<["kuyruk_host" := VStr "h"]> (<["n" := VInt 2]> ∅))
                     App.w0 (fun _ => eq_refl)) eq_refl eq_refl)
    as (r & w' & sent & rest & Hrun & Htr & Hsent & Hrest & Hok).
  destruct (Hok (VTuple [VInt 1]) eq_refl (fun _ _ => eq_refl)) as (Hs & Hr & id & Hid).
  exists r, w', id. split; [exact Hrun | exact Hid].
Defined.

(** ** Owning type and name *)

Lemma set_cls_same (self : Task) (c : PyClass) :
  cls self = Some c -> set_cls self (Some c) = self.
Proof. destruct self; simpl. by intros ->. Qed.

(** C4 (as amended): an access through the type [c] leaves the task with
    owning type [c], and any further accesses through that same type leave
    the task, hence its name, as it is. *)
Theorem get_same_type_keeps_name (rt : Runtime) (self : Task) (c : PyClass)
    (obj : Value) (objs : list Value) :
  let t1 := fst (__get__ self obj c) in
  let tn := foldl (fun t o => fst (__get__ t o c)) t1 objs in
  cls t1 = Some c /\ cls tn = Some c /\ name rt tn = name rt t1.
Proof.
  intros t1 tn. assert (H1 : cls t1 = Some c) by reflexivity.
  assert (Hn : tn = t1).
  { subst tn. generalize dependent t1. induction objs as [|o objs IH]; intros t1 H1.
    - reflexivity.
    - simpl. rewrite (set_cls_same t1 c H1). by apply IH. }
  rewrite Hn. done.
Qed.

(** C4 (as stated) fails: [__get__] assigns [cls] on every access, so an
    access through another type (here a subclass) changes the owning type
    and the name. *)
Lemma get_resets_cls_counterexample :
  ~ (forall (rt : Runtime) (self : Task) (obj1 obj2 : Value) (c1 c2 : PyClass),
        let t1 := fst (__get__ self obj1 c1) in
        let t2 := fst (__get__ t1 obj2 c2) in
        cls t2 = cls t1 /\ name rt t2 = name rt t1).
Proof.
  intros H.
  destruct (H App.rt (App.task_of App.answer false None) App.felix
              (VObj "Lion" ∅) App.Cat App.Lion) as [_ Hname].
  vm_compute in Hname. discriminate Hname.
Qed.

(** ** The handle of a queued call *)

Lemma call_queued_handle rt self args kwargs w h w' :
  eager self || EAGER (kuyruk self) = false ->
  __call__ rt self args kwargs w = (Ok h, w') ->
  exists id, h = setattr (TaskResult_init self) "id" id.
Proof.
  intros Heager. unfold __call__, bind. rewrite Heager.
  destruct (send_signal rt self task_presend args kwargs true NoExtra w) as [[[]|e] w1];
    [|discriminate].
  unfold pop. simpl.
  destruct (send_to_queue _ _ _ _ _ _ w1) as [[id|e] w2]; [|discriminate].
  simpl.
  destruct (send_signal _ _ _ _ _ _ _ w2) as [[[]|e] w3]; [|discriminate].
  intros [= <- _]. by exists id.
Qed.

(** A queued call that meets no failure returns a handle holding the id
    of the descriptor. *)
Lemma call_queued_ok rt self args kwargs w a :
  (forall em, receivers rt em = None) ->
  eager self || EAGER (kuyruk self) = false ->
  channel_fails rt = None ->
  (forall n d, send_fails rt n d = None) ->
  description_args self args = Ok a ->
  exists w',
    __call__ rt self args kwargs w
    = (Ok (setattr (TaskResult_init self) "id" (VStr (uuid_hex rt (uuids w)))), w').
Proof.
  intros quiet Heager Hchan Hsend Hargs. unfold __call__, bind. rewrite Heager.
  rewrite send_signal_quiet by done. unfold pop. simpl.
  rewrite send_to_queue_run by done. rewrite Hargs. simpl.
  rewrite Hsend. simpl. rewrite send_signal_quiet by done. by eexists.
Qed.

(** Reads of the handle of a queued call: every item read raises a plain
    [Exception] whose only argument is the item, and so does, with the
    attribute name, every read of an attribute that is neither held by the
    handle ([task], [id]) nor found on its class; [task] and [id] are read
    without error. *)
Lemma queued_handle_reads (rt : Runtime) (self : Task) (args : list Value)
    (kwargs : gmap string Value) (w : World) (h : TaskResult) (w' : World) :
  eager self || EAGER (kuyruk self) = false ->
  __call__ rt self args kwargs w = (Ok h, w') ->
  (forall item, read_item h item = Raise (mkExn Exception_ [item]))
  /\ (forall attr,
        attr <> "task" -> attr <> "id" ->
        attr ∉ TaskResult_names ++ object_names ->
        read_attr h attr = Raise (mkExn Exception_ [VStr attr]))
  /\ read_attr h "task" = Ok (AttrTask self)
  /\ exists id, read_attr h "id" = Ok (AttrValue id).
Proof.
  intros Heager Hrun.
  destruct (call_queued_handle rt self args kwargs w h w' Heager Hrun) as [id ->].
  split; [done|]. split; [|split; [done | by exists id]].
  intros attr Htask Hid Hcls. unfold read_attr.
  rewrite (proj2 (String.eqb_neq attr "task")) by done. simpl.
  rewrite lookup_insert_ne by done. rewrite lookup_empty.
  by rewrite bool_decide_eq_false_2.
Qed.

(** C3 (at the failing input): a task is called on the queued path and the
    attribute [id] of the handle is read.  The read raises nothing: it
    returns the id of the descriptor, as reading [task] returns the task;
    only what the handle does not hold ([result], any item) raises, and
    then a plain [Exception] naming the attribute or item. *)
Theorem queued_handle_id_is_readable :
  exists h w',
    __call__ App.rt (App.task_of App.answer false None) [] ∅ App.w0 = (Ok h, w')
    /\ read_attr h "id" = Ok (AttrValue (VStr "id-0"))
    /\ read_attr h "task" = Ok (AttrTask (App.task_of App.answer false None))
    /\ read_attr h "result" = Raise (mkExn Exception_ [VStr "result"])
    /\ read_item h (VInt 0) = Raise (mkExn Exception_ [VInt 0]).
Proof.
  destruct (call_queued_ok App.rt (App.task_of App.answer false None) [] ∅ App.w0
              (VTuple []) (fun _ => eq_refl) eq_refl eq_refl
              (fun _ _ => eq_refl) eq_refl) as [w' Hrun].
  eexists _, w'. split; [exact Hrun|]. repeat split; reflexivity.
Qed.

(** ** Result.wait *)

Section wait_facts.

Variable json_loads : string -> option Value.

Lemma total_cons (step : DrainStep) (steps : list DrainStep) :
  total (step :: steps) = took step + total steps.
Proof. reflexivity. Qed.

(** While the channel idles, a waiter without outcome just goes on. *)
Lemma wait_loop_idle start timeout now pre script :
  idle start timeout now pre ->
  wait_loop json_loads start timeout Result_init now (pre ++ script)
  = wait_loop json_loads start timeout Result_init (now + total pre) script.
Proof.
  revert now. induction pre as [|step pre IH]; intros now Hidle.
  - unfold total. simpl. by rewrite Z.add_0_r.
  - destruct Hidle as [Hstep Hidle].
    rewrite total_cons, Z.add_assoc, <- (IH _ Hidle).
    rewrite <- app_comm_cons.
    cbn [wait_loop resolve Result_init exception].
    destruct (drained step) as [bodies|e].
    + subst bodies. reflexivity.
    + destruct (exc_class e); try done.
      * by rewrite (proj2 (Z.ltb_ge _ _) Hstep).
      * by rewrite bool_decide_eq_true_2.
Qed.

Lemma wait_loop_blocked start timeout now pre :
  idle start timeout now pre ->
  wait_loop json_loads start timeout Result_init now pre = (Blocked, Result_init).
Proof.
  intros Hidle. rewrite <- (app_nil_r pre). by rewrite wait_loop_idle.
Qed.

Lemma truthy_dict_lookup (d : gmap string Value) (k : string) (v : Value) :
  d !! k = Some v -> truthy (VDict d) = true.
Proof.
  intros Hk. simpl. destruct (map_to_list d) eqn:Hl; [|done].
  apply map_to_list_empty_iff in Hl. subst d. by rewrite lookup_empty in Hk.
Qed.

End wait_facts.

(** C7 (as amended): for a reply that is a JSON object with a [result],
    an [exception] that is an object with [type], [value] and [traceback]
    takes precedence: [wait] raises [RemoteException] with exactly these
    three, whatever [result] is; when [exception] is missing, null or any
    other value that tests false, [wait] returns [result] as it is. *)
Theorem wait_exception_precedence (json_loads : string -> option Value)
    (timeout now : Z) (pre : list DrainStep) (step : DrainStep) (body : string)
    (rest : list DrainStep) (d : gmap string Value) (r : Value) :
  idle now timeout now pre ->
  drained step = Delivers [body] ->
  json_loads body = Some (VDict d) ->
  d !! "result" = Some r ->
  let outcome :=
    fst (wait json_loads Result_init timeout now (pre ++ step :: rest)) in
  (forall exc ty v tb,
      d !! "exception" = Some (VDict exc) ->
      exc !! "type" = Some ty ->
      exc !! "value" = Some v ->
      exc !! "traceback" = Some tb ->
      outcome = Raised (mkExn RemoteException [ty; v; tb]))
  /\ (d !! "exception" = None
      \/ d !! "exception" = Some VNone
      \/ (exists exc, d !! "exception" = Some exc /\ truthy exc = false) ->
      outcome = Returned r).
Proof.
  intros Hidle Hstep Hjson Hres outcome. subst outcome. unfold wait.
  rewrite wait_loop_idle by done.
  cbn [wait_loop resolve Result_init exception]. rewrite Hstep.
  cbn [deliver]. unfold _process_message. rewrite Hjson.
  cbn [getitem]. rewrite Hres. split.
  - intros exc ty v tb Hexc Hty Hv Htb. rewrite Hexc. cbn [default from_option id].
    destruct rest; cbn [wait_loop resolve exception];
      rewrite (truthy_dict_lookup exc "type" ty Hty); cbn [getitem];
      by rewrite Hty, Hv, Htb.
  - intros [Hexc|[Hexc|(exc & Hexc & Hfalse)]]; rewrite Hexc;
      cbn [default from_option id];
      destruct rest; cbn [wait_loop resolve exception result];
      rewrite ?Hfalse; reflexivity.
Qed.

Lemma wait_exception_precedence_witness :
  fst (wait App.json_loads Result_init 5 0
         [App.slice_timeout; App.interrupted;
          {| took := 1; drained := Delivers ["bad"] |}])
  = Raised (mkExn RemoteException [VStr "ValueError"; VStr "bad"; VStr "..."]).
Proof.
  refine (proj1 (wait_exception_precedence App.json_loads 5 0
                   [App.slice_timeout; App.interrupted]
                   {| took := 1; drained := Delivers ["bad"] |} "bad" [] _ VNone
                   _ eq_refl eq_refl eq_refl) _ _ _ _ eq_refl eq_refl eq_refl eq_refl).
  simpl. unfold EINTR. repeat split; lia.
Defined.

(** C7 (as stated) fails: the reply carries an [exception] object and no
    [result]; [wait] ends with the [KeyError] of the missing key, not with
    [RemoteException]. *)
Lemma wait_exception_without_result_counterexample :
  ~ (forall (json_loads : string -> option Value) (timeout now : Z)
       (step : DrainStep) (body : string) (rest : list DrainStep)
       (d : gmap string Value) (exc : Value),
        drained step = Delivers [body] ->
        json_loads body = Some (VDict d) ->
        d !! "exception" = Some exc ->
        exc <> VNone ->
        exists payload,
          fst (wait json_loads Result_init timeout now (step :: rest))
          = Raised (mkExn RemoteException payload)).
Proof.
  intros H.
  destruct (H App.json_loads_odd 5 0
              {| took := 1; drained := Delivers ["no-result"] |} "no-result" []
              _ _ eq_refl eq_refl eq_refl) as [payload Hp]; [discriminate|].
  vm_compute in Hp. discriminate Hp.
Qed.

(** C8: while no reply arrives, a receive that times out makes [wait]
    compare the time waited with [timeout]: it raises [ResultTimeout] when
    the time waited is greater and goes on otherwise; a receive interrupted
    with [EINTR] is followed by the next receive; any other exception of
    the transport comes out of [wait].  A channel that only idles never
    makes [wait] fail. *)
Theorem wait_timeout_and_interrupts (json_loads : string -> option Value)
    (timeout now : Z) (pre : list DrainStep) (step : DrainStep)
    (rest : list DrainStep) (e : Exn) :
  idle now timeout now pre ->
  drained step = Throws e ->
  let now' := now + total pre + took step in
  let outcome :=
    fst (wait json_loads Result_init timeout now (pre ++ step :: rest)) in
  let goes_on :=
    outcome = fst (wait_loop json_loads now timeout Result_init now' rest) in
  fst (wait json_loads Result_init timeout now pre) = Blocked
  /\ (exc_class e = socket_timeout ->
      (timeout < now' - now -> outcome = Raised (mkExn ResultTimeout []))
      /\ (now' - now <= timeout -> goes_on))
  /\ (exc_class e = socket_error ->
      (errno_of e = Some EINTR -> goes_on)
      /\ (errno_of e <> Some EINTR -> outcome = Raised e))
  /\ (exc_class e <> socket_timeout -> exc_class e <> socket_error ->
      outcome = Raised e).
Proof.
  intros Hidle Hstep now' outcome goes_on. subst goes_on outcome. unfold wait.
  split; [by rewrite wait_loop_blocked|].
  rewrite wait_loop_idle by done.
  cbn [wait_loop resolve Result_init exception]. rewrite Hstep. fold now'.
  split; [|split].
  - intros ->. split.
    + intros Hlate. by rewrite (proj2 (Z.ltb_lt _ _) Hlate).
    + intros Hearly. by rewrite (proj2 (Z.ltb_ge _ _) Hearly).
  - intros ->. split.
    + intros Heintr. by rewrite bool_decide_eq_true_2.
    + intros Hother. by rewrite bool_decide_eq_false_2.
  - intros Hnt Hne. destruct (exc_class e); done.
Qed.

Lemma wait_timeout_and_interrupts_witness :
  fst (wait App.json_loads Result_init 2 0
         [App.slice_timeout; App.interrupted; App.slice_timeout;
          App.slice_timeout; App.reset])
  = Raised (mkExn ResultTimeout []).
Proof.
  refine (proj1 (proj1 (proj2 (wait_timeout_and_interrupts App.json_loads 2 0
                   [App.slice_timeout; App.interrupted; App.slice_timeout]
                   App.slice_timeout [App.reset] _ _ eq_refl)) eq_refl) _).
  - simpl. unfold EINTR. repeat split; lia.
  - vm_compute. reflexivity.
Defined.

(** * Further facts *)

(** ** More on the descriptor *)

(** X1: a descriptor has exactly the twelve keys of the dictionary literal;
    it carries the task's retry count, the queue name and the keyword
    arguments it was given, and a fresh id; building it takes one id and
    leaves the trace alone. *)
Theorem description_fields (rt : Runtime) (self : Task) (args : list Value)
    (kwargs : gmap string Value) (q : string) (w : World)
    (desc : gmap string Value) (w' : World) :
  get_task_description rt self args kwargs q w = (Ok desc, w') ->
  dom desc = description_keys
  /\ desc !! "id" = Some (VStr (uuid_hex rt (uuids w)))
  /\ desc !! "queue" = Some (VStr q)
  /\ desc !! "kwargs" = Some (VDict kwargs)
  /\ desc !! "retry" = Some (VInt (retry self))
  /\ desc !! "module" = Some (VStr (module_name rt self))
  /\ desc !! "function" = Some (VStr (f_name (f self)))
  /\ uuids w' = S (uuids w)
  /\ trace w' = trace w.
Proof.
  rewrite get_task_description_run.
  destruct (description_args self args) as [a|e]; [|discriminate].
  intros [= <- <-]. split.
  - unfold description, description_keys. rewrite !dom_insert_L, dom_empty_L.
    simpl. set_solver.
  - repeat split; reflexivity.
Qed.

Lemma description_fields_witness :
  exists desc w',
    get_task_description App.rt (App.task_of App.answer false None)
      [VInt 1] ∅ "kuyruk" App.w0 = (Ok desc, w')
    /\ dom desc = description_keys
    /\ desc !! "retry" = Some (VInt 0).
Proof.
  assert (Hrun : get_task_description App.rt (App.task_of App.answer false None)
                   [VInt 1] ∅ "kuyruk" App.w0
                 = (Ok (description App.rt (App.task_of App.answer false None)
                          "id-0" "kuyruk" (VTuple [VInt 1]) ∅ 0),
                    {| trace := []; clock := 0; alarm := 0; uuids := 1 |}))
    by (rewrite get_task_description_run; reflexivity).
  destruct (description_fields _ _ _ _ _ _ _ _ Hrun) as (Hdom & _ & _ & _ & Hretry & _).
  eexists _, _. split; [exact Hrun|]. split; [exact Hdom | exact Hretry].
Defined.



(** ** More on send_to_queue *)

Lemma send_to_queue_no_channel rt self args kwargs host local_arg w e :
  channel_fails rt = Some e ->
  send_to_queue rt self args kwargs host local_arg w = (Raise e, w).
Proof.
  intros Hchan. unfold send_to_queue, with_channel, bind.
  destruct (routed rt self host local_arg). by rewrite Hchan.
Qed.

(** X3: the channel is scoped.  If it cannot be acquired, [send_to_queue]
    raises that error and leaves the world as it was; otherwise everything
    it does happens between one [ChannelEnter] and one [ChannelExit],
    whether the descriptor could be built and sent or not. *)
Theorem send_to_queue_channel_scope (rt : Runtime) (self : Task)
    (args : list Value) (kwargs : gmap string Value) (host local_arg : Value)
    (w : World) :
  (forall e, channel_fails rt = Some e ->
             send_to_queue rt self args kwargs host local_arg w = (Raise e, w))
  /\ (channel_fails rt = None ->
      exists r w' mid,
        send_to_queue rt self args kwargs host local_arg w = (r, w')
        /\ trace w' = trace w ++ [ChannelEnter] ++ mid ++ [ChannelExit]
        /\ Forall is_queue_event mid).
Proof.
  split.
  - intros e Hchan. by apply send_to_queue_no_channel.
  - intros Hchan. rewrite send_to_queue_run by done.
    destruct (description_args self args) as [a|e]; simpl.
    + destruct (send_fails rt _ _);
        (eexists _, _, [QueueNew _ _; QueueSend _ _];
         split; [reflexivity|]; split; [reflexivity|];
         repeat constructor).
    + eexists _, _, [QueueNew _ _].
      split; [reflexivity|]. split; [reflexivity|]. repeat constructor.
Qed.

Lemma send_to_queue_channel_scope_witness :
  exists r w' mid,
    send_to_queue App.rt (App.task_of App.answer false (Some App.Cat)) [] ∅
      VNone VNone App.w0 = (r, w')
    /\ trace w' = [ChannelEnter] ++ mid ++ [ChannelExit].
Proof.
  destruct (proj2 (send_to_queue_channel_scope App.rt
                     (App.task_of App.answer false (Some App.Cat)) [] ∅
                     VNone VNone App.w0) eq_refl)
    as (r & w' & mid & Hrun & Htr & _).
  exists r, w', mid. split; [exact Hrun | exact Htr].
Defined.

(** What a successful [send_to_queue] leaves behind. *)
Lemma send_to_queue_ok rt self args kwargs host local_arg w v w' :
  send_to_queue rt self args kwargs host local_arg w = (Ok v, w') ->
  v = VStr (uuid_hex rt (uuids w))
  /\ uuids w' = S (uuids w)
  /\ exists n desc,
      last (trace w') = Some ChannelExit
      /\ QueueSend n desc ∈ trace w'
      /\ desc !! "id" = Some v.
Proof.
  destruct (channel_fails rt) as [e|] eqn:Hchan.
  - rewrite (send_to_queue_no_channel rt self args kwargs host local_arg w e Hchan).
    discriminate.
  - rewrite send_to_queue_run by done.
    destruct (description_args self args) as [a|e]; simpl; [|discriminate].
    destruct (send_fails rt _ _); [discriminate|].
    intros [= <- <-]. split; [done|]. split; [done|].
    eexists _, _. split; [|split; [|apply description_id]].
    + simpl.
      match goal with
      | |- last (?t ++ [?a; ?b; ?c; ?d]) = _ =>
          change (t ++ [a; b; c; d]) with (t ++ [a; b; c] ++ [d])
      end.
      rewrite app_assoc. apply last_snoc.
    + simpl. rewrite elem_of_app. right. rewrite !elem_of_cons. auto.
Qed.

(** X4: the value [send_to_queue] returns is the id of the descriptor it
    sent, and each send takes the next id of the generator: two sends in a
    row return different ids as long as the generator does not repeat
    itself. *)
Theorem send_to_queue_ids (rt : Runtime)
    (self1 self2 : Task) (args1 args2 : list Value)
    (kwargs1 kwargs2 : gmap string Value) (host1 local1 host2 local2 : Value)
    (w w1 w2 : World) (v1 v2 : Value) :
  send_to_queue rt self1 args1 kwargs1 host1 local1 w = (Ok v1, w1) ->
  send_to_queue rt self2 args2 kwargs2 host2 local2 w1 = (Ok v2, w2) ->
  (exists n desc, QueueSend n desc ∈ trace w1 /\ desc !! "id" = Some v1)
  /\ (exists n desc, QueueSend n desc ∈ trace w2 /\ desc !! "id" = Some v2)
  /\ v1 = VStr (uuid_hex rt (uuids w))
  /\ v2 = VStr (uuid_hex rt (S (uuids w)))
  /\ ((forall i j, uuid_hex rt i = uuid_hex rt j -> i = j) -> v1 <> v2).
Proof.
  intros H1 H2.
  destruct (send_to_queue_ok _ _ _ _ _ _ _ _ _ H1)
    as (E1 & Hu1 & n1 & d1 & _ & Hs1 & Hi1).
  destruct (send_to_queue_ok _ _ _ _ _ _ _ _ _ H2)
    as (E2 & Hu2 & n2 & d2 & _ & Hs2 & Hi2).
  rewrite Hu1 in E2. subst v1 v2. split; [by exists n1, d1|]. split; [by exists n2, d2|].
  split; [done|]. split; [done|].
  intros Hinj [= Heq]. apply Hinj in Heq. lia.
Qed.

Lemma send_to_queue_ids_witness :
  exists v1 w1 v2 w2,
    send_to_queue App.rt (App.task_of App.answer false None) [] ∅ VNone VNone
      App.w0 = (Ok v1, w1)
    /\ send_to_queue App.rt (App.task_of App.answer false None) [] ∅ VNone VNone
         w1 = (Ok v2, w2)
    /\ v1 = VStr "id-0" /\ v2 = VStr "id-n".
Proof.
  destruct (send_to_queue App.rt (App.task_of App.answer false None) [] ∅
              VNone VNone App.w0) as [[v1|e1] w1] eqn:H1;
    [|rewrite send_to_queue_run in H1 by reflexivity; discriminate H1].
  destruct (send_to_queue App.rt (App.task_of App.answer false None) [] ∅
              VNone VNone w1) as [[v2|e2] w2] eqn:H2;
    [|rewrite send_to_queue_run in H2 by reflexivity; discriminate H2].
  destruct (send_to_queue_ids _ _ _ _ _ _ _ _ _ _ _ _ _ _ _ _ H1 H2)
    as (_ & _ & E1 & E2 & _).
  exists v1, w1, v2, w2. repeat split; assumption.
Defined.

(** ** Handlers that raise *)

Section some_receivers.

Variable rt : Runtime.

Lemma send_each_quiet_for signal self args kwargs extra ss w :
  (forall em, em_signal em = signal -> receivers rt em = None) ->
  send_each rt signal self args kwargs extra ss w
  = (Ok tt, push w (emissions self signal args kwargs extra ss)).
Proof.
  intros Hq. revert w. induction ss as [|s ss IH]; intros w.
  - destruct w; unfold push; simpl. by rewrite app_nil_r.
  - simpl. unfold bind, signal_send, bind, log. rewrite Hq by done. simpl.
    rewrite IH, push_push. done.
Qed.

Lemma send_signal_quiet_for signal self args kwargs reverse extra w :
  (forall em, em_signal em = signal -> receivers rt em = None) ->
  send_signal rt self signal args kwargs reverse extra w
  = (Ok tt, push w (emissions self signal args kwargs extra (senders self reverse))).
Proof. apply send_each_quiet_for. Qed.

Lemma send_each_raise signal self args kwargs extra before s after e w :
  (forall x, x ∈ before ->
     receivers rt {| em_signal := signal; em_sender := x; em_task := self;
                     em_args := args; em_kwargs := kwargs; em_extra := extra |}
     = None) ->
  receivers rt {| em_signal := signal; em_sender := s; em_task := self;
                  em_args := args; em_kwargs := kwargs; em_extra := extra |}
  = Some e ->
  send_each rt signal self args kwargs extra (before ++ s :: after) w
  = (Raise e, push w (emissions self signal args kwargs extra (before ++ [s]))).
Proof.
  intros Hbefore Hs. revert w.
  induction before as [|b before IH]; intros w; simpl;
    unfold bind, signal_send, bind, log.
  - by rewrite Hs.
  - rewrite Hbefore by apply list_elem_of_here. simpl.
    rewrite IH, push_push; [done|].
    intros x Hx. apply Hbefore. by apply list_elem_of_further.
Qed.

Lemma send_signal_raise_first signal self args kwargs reverse extra s after e w :
  senders self reverse = s :: after ->
  receivers rt {| em_signal := signal; em_sender := s; em_task := self;
                  em_args := args; em_kwargs := kwargs; em_extra := extra |}
  = Some e ->
  send_signal rt self signal args kwargs reverse extra w
  = (Raise e, push w (emissions self signal args kwargs extra [s])).
Proof.
  intros Hchain Hs. unfold send_signal. rewrite Hchain.
  apply (send_each_raise signal self args kwargs extra [] s after e w);
    [by intros x Hx%elem_of_nil | done].
Qed.

End some_receivers.

(** X7: a broadcast stops at the first sender one of whose handlers
    raises: the senders before it have been served, the ones after it are
    not, and the exception comes out of [send_signal]. *)
Theorem send_signal_stops_at_raise (rt : Runtime) (self : Task)
    (signal : Signal) (args : list Value) (kwargs : gmap string Value)
    (reverse : bool) (extra : Extra) (before : list Sender) (s : Sender)
    (after : list Sender) (e : Exn) (w : World) :
  senders self reverse = before ++ s :: after ->
  (forall x, x ∈ before ->
     receivers rt {| em_signal := signal; em_sender := x; em_task := self;
                     em_args := args; em_kwargs := kwargs; em_extra := extra |}
     = None) ->
  receivers rt {| em_signal := signal; em_sender := s; em_task := self;
                  em_args := args; em_kwargs := kwargs; em_extra := extra |}
  = Some e ->
  exists w',
    send_signal rt self signal args kwargs reverse extra w = (Raise e, w')
    /\ trace w' = trace w ++ emissions self signal args kwargs extra (before ++ [s])
    /\ fired signal (emissions self signal args kwargs extra (before ++ [s]))
       = before ++ [s].
Proof.
  intros Hchain Hbefore Hs. unfold send_signal. rewrite Hchain.
  rewrite (send_each_raise rt signal self args kwargs extra before s after e w)
    by done.
  eexists. split; [reflexivity|]. split; [reflexivity|].
  apply fired_emissions_same.
Qed.

Lemma send_signal_stops_at_raise_witness :
  exists w',
    send_signal (App.rt_raising task_presend App.boom)
      (App.task_of App.answer false None) task_presend [] ∅ true NoExtra App.w0
    = (Raise App.boom, w')
    /\ fired task_presend (trace w') = [SenderKuyruk App.the_kuyruk].
Proof.
  destruct (send_signal_stops_at_raise (App.rt_raising task_presend App.boom)
              (App.task_of App.answer false None) task_presend [] ∅ true NoExtra
              [] (SenderKuyruk App.the_kuyruk)
              [SenderClass App.Task_; SenderTask (App.task_of App.answer false None)]
              App.boom App.w0 eq_refl
              (fun x Hx => False_ind _ (proj1 (elem_of_nil x) Hx)) eq_refl)
    as (w' & Hrun & Htr & Hfired).
  exists w'. split; [exact Hrun|]. rewrite Htr. exact Hfired.
Defined.

(** ** More on Task.apply *)

Section apply_more.

Variable rt : Runtime.

(** [call_f] under the alarm that [time_limit] has armed. *)
Lemma call_f_run self args kwargs w :
  fst (call_f self args kwargs w) = cut_outcome self args kwargs (alarm w)
  /\ trace (snd (call_f self args kwargs w)) = trace w ++ [Call args kwargs].
Proof.
  unfold call_f, cut_outcome. by destruct (_ && _).
Qed.

(** The block of [Task.apply] under [time_limit]. *)
Lemma limited_call_run self args kwargs w :
  exists w',
    time_limit (limit_of self) (call_f self args kwargs) w
    = (body_outcome self args kwargs (limit_of self), w')
    /\ trace w' = trace w ++ limit_events self args kwargs.
Proof.
  unfold time_limit, bind, try_finally, signal_alarm, body_outcome, limit_events.
  destruct (in_c_int (limit_of self)).
  - match goal with
    | |- context [call_f self args kwargs ?w0] =>
        destruct (call_f_run self args kwargs w0) as [Hout Htr];
        destruct (call_f self args kwargs w0) as [r w1]
    end.
    cbn [fst snd alarm trace] in Hout, Htr. subst r.
    change (in_c_int 0) with true. cbv beta iota.
    eexists. split; [reflexivity|]. cbn [trace]. rewrite Htr.
    by rewrite <- !app_assoc.
  - eexists. split; [reflexivity|]. by rewrite app_nil_r.
Qed.

(** [Task.apply] has no value to return. *)
Lemma apply_ok_None self args kwargs w v w' :
  Task_apply rt self args kwargs w = (Ok v, w') -> v = VNone.
Proof.
  unfold Task_apply, profile, apply_undecorated, bind, time, ret, log.
  destruct (try_finally _ _ w) as [[[]|e] w1]; simpl; [|discriminate].
  by intros [= <- _].
Qed.

End apply_more.

(** X20: when a [task_prerun] handler raises the exception [e], the
    wrapped function is not called and no alarm is armed; [task_failure] is
    broadcast with [e], then [task_postrun], and [e] comes out of
    [Task.apply]. *)
Theorem apply_prerun_handler_raises (rt : Runtime) (self : Task)
    (args : list Value) (kwargs : gmap string Value) (w : World) (e : Exn) :
  (forall em, em_signal em = task_prerun -> receivers rt em = Some e) ->
  (forall em, em_signal em <> task_prerun -> receivers rt em = None) ->
  is_Exception e = true ->
  exists w',
    Task_apply rt self args kwargs w = (Raise e, w')
    /\ trace w' = trace w
         ++ emissions self task_prerun args kwargs NoExtra [SenderKuyruk (kuyruk self)]
         ++ emissions self task_failure args kwargs (exc_info e) (senders self false)
         ++ emissions self task_postrun args kwargs NoExtra (senders self false).
Proof.
  intros Hpre Hother Hexc.
  unfold Task_apply, profile, apply_undecorated, bind, time, try_finally,
    try_except_else.
  rewrite (send_signal_raise_first rt task_prerun self args kwargs true NoExtra
             (SenderKuyruk (kuyruk self)) _ e w eq_refl) by (by apply Hpre).
  rewrite Hexc.
  rewrite (send_signal_quiet_for rt task_failure)
    by (intros em Hem; apply Hother; by rewrite Hem).
  simpl.
  rewrite (send_signal_quiet_for rt task_postrun)
    by (intros em Hem; apply Hother; by rewrite Hem).
  eexists. split; [reflexivity|]. simpl. by rewrite <- !app_assoc.
Qed.

Lemma apply_prerun_handler_raises_witness :
  exists w',
    Task_apply (App.rt_raising task_prerun App.boom)
      (App.task_of App.answer true None) [] ∅ App.w0 = (Raise App.boom, w')
    /\ fired task_postrun (trace w') = senders (App.task_of App.answer true None) false.
Proof.
  destruct (apply_prerun_handler_raises (App.rt_raising task_prerun App.boom)
              (App.task_of App.answer true None) [] ∅ App.w0 App.boom)
    as (w' & Hrun & Htr).
  - intros em Hem. simpl. by rewrite bool_decide_eq_true_2.
  - intros em Hem. simpl. by rewrite bool_decide_eq_false_2.
  - reflexivity.
  - exists w'. split; [exact Hrun|]. rewrite Htr. reflexivity.
Defined.

(** X21: when the wrapped function raises an exception [e] and a
    [task_failure] handler raises [e'], it is [e'] that comes out of
    [Task.apply]: the broadcast of [task_failure] stops at the task itself,
    and [task_postrun] is still broadcast to the whole chain. *)
Theorem apply_failure_handler_raises (rt : Runtime) (self : Task)
    (args : list Value) (kwargs : gmap string Value) (w : World) (e e' : Exn) :
  (forall em, em_signal em = task_failure -> receivers rt em = Some e') ->
  (forall em, em_signal em <> task_failure -> receivers rt em = None) ->
  body_outcome self args kwargs (limit_of self) = Raise e ->
  is_Exception e = true ->
  exists w',
    Task_apply rt self args kwargs w = (Raise e', w')
    /\ trace w' = trace w
         ++ emissions self task_prerun args kwargs NoExtra (senders self true)
         ++ limit_events self args kwargs
         ++ emissions self task_failure args kwargs (exc_info e) [SenderTask self]
         ++ emissions self task_postrun args kwargs NoExtra (senders self false).
Proof.
  intros Hfail Hother Hbody Hexc.
  unfold Task_apply, profile, apply_undecorated, bind, time, try_finally,
    try_except_else.
  fold (limit_of self).
  rewrite (send_signal_quiet_for rt task_prerun)
    by (intros em Hem; apply Hother; by rewrite Hem).
  match goal with
  | |- context [time_limit (limit_of self) (call_f self args kwargs) ?w0] =>
      destruct (limited_call_run self args kwargs w0) as (w1 & Hrun & Htr)
  end.
  rewrite Hrun, Hbody, Hexc.
  rewrite (send_signal_raise_first rt task_failure self args kwargs false
             (exc_info e) (SenderTask self) _ e' _ eq_refl) by (by apply Hfail).
  rewrite (send_signal_quiet_for rt task_postrun)
    by (intros em Hem; apply Hother; by rewrite Hem).
  eexists. split; [reflexivity|]. cbn [trace push snd]. rewrite Htr.
  cbn [trace push]. by rewrite <- !app_assoc.
Qed.

Lemma apply_failure_handler_raises_witness :
  exists w',
    Task_apply (App.rt_raising task_failure App.boom)
      (App.task_of App.failing true None) [] ∅ App.w0 = (Raise App.boom, w')
    /\ fired task_postrun (trace w')
       = senders (App.task_of App.failing true None) false.
Proof.
  destruct (apply_failure_handler_raises (App.rt_raising task_failure App.boom)
              (App.task_of App.failing true None) [] ∅ App.w0
              (mkExn ValueError [VStr "no"]) App.boom)
    as (w' & Hrun & Htr).
  - intros em Hem. simpl. by rewrite bool_decide_eq_true_2.
  - intros em Hem. simpl. by rewrite bool_decide_eq_false_2.
  - reflexivity.
  - reflexivity.
  - exists w'. split; [exact Hrun|]. rewrite Htr. reflexivity.
Defined.

(** ** More on Task.__call__ *)

(** X10: [Task.apply] returns no value but [None], whatever the wrapped
    function and the handlers do; so the handle of an eager call holds
    [result = None] and nothing else: reading [result] gives [None],
    reading [id] raises. *)
Theorem eager_handle_holds_None (rt : Runtime) (self : Task)
    (args : list Value) (kwargs : gmap string Value) (w : World) :
  (forall v w', Task_apply rt self args kwargs w = (Ok v, w') -> v = VNone)
  /\ (eager self || EAGER (kuyruk self) = true ->
      forall h w',
        __call__ rt self args kwargs w = (Ok h, w') ->
        task h = self
        /\ instance_dict h = {[ "result" := VNone ]}
        /\ read_attr h "result" = Ok (AttrValue VNone)
        /\ read_attr h "id" = Raise (mkExn Exception_ [VStr "id"])).
Proof.
  split; [intros v w'; apply apply_ok_None|].
  intros Heager h w'. unfold __call__, bind. rewrite Heager.
  destruct (send_signal rt self task_presend args kwargs true NoExtra w)
    as [[[]|e] w1]; [|discriminate].
  destruct (Task_apply rt self args kwargs w1) as [[v|e] w2] eqn:Happly;
    [|discriminate].
  apply apply_ok_None in Happly. subst v. simpl.
  destruct (send_signal _ _ _ _ _ _ _ w2) as [[[]|e] w3]; [|discriminate].
  intros [= <- _]. repeat split; reflexivity.
Qed.

Lemma eager_handle_holds_None_witness :
  exists h w',
    __call__ App.rt (App.task_of App.answer true None) [] ∅ App.w0 = (Ok h, w')
    /\ read_attr h "result" = Ok (AttrValue VNone).
Proof.
  destruct (call_eager_stores_None App.rt (fun _ => eq_refl)
              (App.task_of App.answer true None) [] ∅ App.w0 (VInt 42)
              eq_refl eq_refl) as (h & w' & Hrun & _).
  exists h, w'. split; [exact Hrun|].
  exact (proj1 (proj2 (proj2 (proj2 (eager_handle_holds_None App.rt
           (App.task_of App.answer true None) [] ∅ App.w0) eq_refl h w' Hrun)))).
Defined.

(** X6: when the wrapped function of an eager task raises (or is cut by
    the deadline), the exception comes out of the call itself: no handle is
    returned and [task_postsend] is not broadcast, while [task_presend] and
    [task_postrun] have been. *)
Theorem eager_call_raises (rt : Runtime) (self : Task) (args : list Value)
    (kwargs : gmap string Value) (w : World) (e : Exn) :
  (forall em, receivers rt em = None) ->
  eager self || EAGER (kuyruk self) = true ->
  body_outcome self args kwargs (limit_of self) = Raise e ->
  exists w' new,
    __call__ rt self args kwargs w = (Raise e, w')
    /\ trace w' = trace w ++ new
    /\ fired task_presend new = senders self true
    /\ fired task_postrun new = senders self false
    /\ fired task_postsend new = [].
Proof.
  intros quiet Heager Hbody.
  destruct (call_eager_quiet rt quiet self args kwargs w Heager)
    as (r & w' & Hrun & Htr & Hr).
  unfold apply_result in Htr, Hr. unfold apply_events in Htr.
  rewrite Hbody in Htr, Hr. subst r.
  exists w'. eexists. split; [exact Hrun|]. split; [exact Htr|].
  rewrite !fired_app. unfold limit_events.
  destruct (in_c_int (limit_of self)), (is_Exception e); repeat split; reflexivity.
Qed.

Lemma eager_call_raises_witness :
  exists w',
    __call__ App.rt App.hurried [] ∅ App.w0 = (Raise (mkExn Timeout []), w')
    /\ fired task_postsend (trace w') = [].
Proof.
  destruct (eager_call_raises App.rt App.hurried [] ∅ App.w0 (mkExn Timeout [])
              (fun _ => eq_refl) eq_refl eq_refl)
    as (w' & new & Hrun & Htr & _ & _ & Hpost).
  exists w'. split; [exact Hrun|]. rewrite Htr. exact Hpost.
Defined.

(** X5: a queued call that cannot acquire the channel, cannot build the
    descriptor, or whose send fails, raises that very exception: no handle
    is returned and [task_postsend] is not broadcast. *)
Theorem queued_call_failure (rt : Runtime) (self : Task) (args : list Value)
    (kwargs : gmap string Value) (w : World) (e : Exn) :
  (forall em, receivers rt em = None) ->
  eager self || EAGER (kuyruk self) = false ->
  channel_fails rt = Some e
  \/ (channel_fails rt = None /\ description_args self args = Raise e)
  \/ (channel_fails rt = None /\ (exists a, description_args self args = Ok a)
      /\ forall n d, send_fails rt n d = Some e) ->
  exists w' new,
    __call__ rt self args kwargs w = (Raise e, w')
    /\ trace w' = trace w ++ new
    /\ fired task_presend new = senders self true
    /\ fired task_postsend new = []
    /\ (channel_fails rt = None -> last new = Some ChannelExit).
Proof.
  intros quiet Heager Hcause. unfold __call__, bind. rewrite Heager.
  rewrite send_signal_quiet by done. unfold pop. simpl.
  destruct Hcause as [Hchan|[[Hchan Hargs]|(Hchan & [a Hargs] & Hsend)]].
  - rewrite (send_to_queue_no_channel rt _ _ _ _ _ _ e Hchan). simpl.
    eexists _, _. split; [reflexivity|]. split; [reflexivity|].
    split; [reflexivity|]. split; [reflexivity|].
    intros Hnone. rewrite Hchan in Hnone. discriminate.
  - rewrite send_to_queue_run by done. rewrite Hargs. simpl.
    eexists _, _. split; [reflexivity|]. simpl.
    split; [by rewrite <- app_assoc|].
    split; [rewrite fired_app; reflexivity|].
    split; [rewrite fired_app; reflexivity|]. intros _.
    match goal with
    | |- last (?t ++ [?a; ?b; ?c]) = _ =>
        change (t ++ [a; b; c]) with (t ++ [a; b] ++ [c])
    end.
    rewrite app_assoc. apply last_snoc.
  - rewrite send_to_queue_run by done. rewrite Hargs. simpl. rewrite Hsend.
    eexists _, _. split; [reflexivity|]. simpl.
    split; [by rewrite <- app_assoc|].
    split; [rewrite fired_app; reflexivity|].
    split; [rewrite fired_app; reflexivity|]. intros _.
    match goal with
    | |- last (?t ++ [?a; ?b; ?c; ?d]) = _ =>
        change (t ++ [a; b; c; d]) with (t ++ [a; b; c] ++ [d])
    end.
    rewrite app_assoc. apply last_snoc.
Qed.

Lemma queued_call_failure_witness :
  exists w',
    __call__ App.rt (App.task_of App.answer false (Some App.Cat)) [] ∅ App.w0
    = (Raise (mkExn IndexError [VStr "list index out of range"]), w')
    /\ fired task_postsend (trace w') = [].
Proof.
  destruct (queued_call_failure App.rt (App.task_of App.answer false (Some App.Cat))
              [] ∅ App.w0 (mkExn IndexError [VStr "list index out of range"]) (fun _ => eq_refl) eq_refl
              (or_intror (or_introl (conj eq_refl eq_refl))))
    as (w' & new & Hrun & Htr & _ & Hpost & _).
  exists w'. split; [exact Hrun|]. rewrite Htr. exact Hpost.
Defined.

(** ** time_limit *)

Lemma time_limit_run {A} (seconds : Z) (body : M A) (w armed : World) :
  signal_alarm seconds w = (Ok tt, armed) ->
  fst (time_limit seconds body w) = fst (body armed)
  /\ alarm (snd (time_limit seconds body w)) = 0
  /\ trace (snd (time_limit seconds body w)) = trace (snd (body armed)) ++ [Alarm 0].
Proof.
  intros Harmed. unfold time_limit, bind, try_finally. rewrite Harmed.
  unfold signal_alarm. change (in_c_int 0) with true. cbv beta iota.
  by destruct (body armed) as [r w1].
Qed.

Lemma time_limit_overflow {A} (seconds : Z) (body : M A) (w : World) :
  in_c_int seconds = false ->
  time_limit seconds body w = (Raise (alarm_overflow seconds), w).
Proof.
  intros Hfit. unfold time_limit, bind, signal_alarm. by rewrite Hfit.
Qed.

Lemma time_limit_ok_alarm {A} (seconds : Z) (body : M A) (w w2 : World) (a : A) :
  time_limit seconds body w = (Ok a, w2) -> alarm w2 = 0.
Proof.
  destruct (in_c_int seconds) eqn:Hfit.
  - intros Hrun.
    destruct (time_limit_run seconds body w
                {| trace := trace w ++ [Alarm seconds]; clock := clock w;
                   alarm := seconds mod 4294967296; uuids := uuids w |})
      as (_ & Halarm & _).
    { unfold signal_alarm. by rewrite Hfit. }
    by rewrite Hrun in Halarm.
  - by rewrite time_limit_overflow.
Qed.



(** X9: limits do not nest.  A block under [time_limit] that has run an
    inner [time_limit] to its end is left without any alarm: a function
    called after it is never cut, however small the outer limit. *)
Theorem nested_time_limit_disarms_outer {A : Type} (outer inner_seconds : Z)
    (inner : M A) (self : Task) (args : list Value)
    (kwargs : gmap string Value) (w armed : World) (a : A) (w2 : World) :
  signal_alarm outer w = (Ok tt, armed) ->
  time_limit inner_seconds inner armed = (Ok a, w2) ->
  fst (time_limit outer
         (let! _ := time_limit inner_seconds inner in call_f self args kwargs) w)
  = ends (f_body (f self) args kwargs).
Proof.
  intros Harmed Hinner.
  destruct (time_limit_run outer
              (let! _ := time_limit inner_seconds inner in call_f self args kwargs)
              w armed Harmed)
    as (-> & _).
  unfold bind at 1. rewrite Hinner.
  rewrite (proj1 (call_f_run self args kwargs w2)).
  unfold cut_outcome. by rewrite (time_limit_ok_alarm _ _ _ _ _ Hinner).
Qed.

Lemma nested_time_limit_disarms_outer_witness :
  fst (time_limit 1
         (let! _ := time_limit 5 (ret tt) in
          call_f (App.task_of App.sleepy true None) [] ∅) App.w0)
  = Ok VNone.
Proof.
  exact (nested_time_limit_disarms_outer 1 5 (ret tt)
           (App.task_of App.sleepy true None) [] ∅ App.w0 _ tt _ eq_refl eq_refl).
Defined.

(** ** From the class to the queue *)

Section bound_calls.

Variable rt : Runtime.
Hypothesis quiet : forall em, receivers rt em = None.


End bound_calls.



(** X12: the descriptor names the task.  From the [module], [class] and
    [function] fields of any descriptor the name of the task can be put
    together again: ["module:function"] when [class] is [None] (or empty),
    ["module:class.function"] otherwise. *)
Theorem description_names_the_task (rt : Runtime) (self : Task)
    (args : list Value) (kwargs : gmap string Value) (q : string) (w : World)
    (desc : gmap string Value) (w' : World) :
  get_task_description rt self args kwargs q w = (Ok desc, w') ->
  exists m fn,
    desc !! "module" = Some (VStr m)
    /\ desc !! "function" = Some (VStr fn)
    /\ ((desc !! "class" = Some VNone /\ name rt self = m +:+ ":" +:+ fn)
        \/ exists cn,
             desc !! "class" = Some (VStr cn)
             /\ name rt self
                = if String.eqb cn EmptyString then m +:+ ":" +:+ fn
                  else m +:+ ":" +:+ cn +:+ "." +:+ fn).
Proof.
  rewrite get_task_description_run.
  destruct (description_args self args) as [a|e]; [|discriminate].
  intros [= <- _]. exists (module_name rt self), (f_name (f self)).
  split; [reflexivity|]. split; [reflexivity|].
  rewrite description_class. unfold name.
  destruct (class_name self) as [cn|]; simpl; [right; by exists cn | by left].
Qed.

Lemma description_names_the_task_witness :
  exists desc w',
    get_task_description App.rt (App.task_of App.answer false (Some App.Cat))
      [App.felix] ∅ "kuyruk" App.w0 = (Ok desc, w')
    /\ desc !! "class" = Some (VStr "Cat")
    /\ name App.rt (App.task_of App.answer false (Some App.Cat)) = "tasks:Cat.answer".
Proof.
  assert (Hrun : get_task_description App.rt
                   (App.task_of App.answer false (Some App.Cat))
                   [App.felix] ∅ "kuyruk" App.w0
                 = (Ok (description App.rt (App.task_of App.answer false (Some App.Cat))
                          "id-0" "kuyruk" (VList [VInt 7]) ∅ 0),
                    {| trace := []; clock := 0; alarm := 0; uuids := 1 |}))
    by (rewrite get_task_description_run; reflexivity).
  destruct (description_names_the_task _ _ _ _ _ _ _ _ Hrun)
    as (m & fn & _ & _ & Hname).
  eexists _, _. split; [exact Hrun|]. split; reflexivity.
Defined.

(** ** The life of the owning type *)

(** X13: a task as [__init__] leaves it has no owning type: its name is
    ["module:function"] and a descriptor is built for any arguments, which
    it carries unchanged.  The first access through a type [c] makes it a
    class task named ["module:c.function"] (for a type with a name), for
    which an empty argument list builds no descriptor any more. *)
Theorem fresh_task_then_accessed (rt : Runtime) (cls_ : PyClass)
    (fn : Function) (k : Kuyruk) (queue_ : option string)
    (local_ eager_ : option bool) (retry_ max_run_time_ : option Z)
    (obj : Value) (c : PyClass) (args : list Value)
    (kwargs : gmap string Value) (q : string) (w : World) :
  let t := Task_init cls_ fn k queue_ local_ eager_ retry_ max_run_time_ in
  let t' := fst (__get__ t obj c) in
  name rt t = module_name rt t +:+ ":" +:+ f_name fn
  /\ (exists desc w',
        get_task_description rt t args kwargs q w = (Ok desc, w')
        /\ desc !! "args" = Some (VTuple args))
  /\ module_name rt t' = module_name rt t
  /\ (__name__ c <> EmptyString ->
      name rt t' = module_name rt t +:+ ":" +:+ __name__ c +:+ "." +:+ f_name fn)
  /\ get_task_description rt t' [] kwargs q w
     = (Raise (mkExn IndexError [VStr "list index out of range"]), w).
Proof.
  intros t t'. split; [reflexivity|]. split; [|split; [reflexivity|split]].
  - rewrite get_task_description_run. simpl. eexists _, _.
    split; [reflexivity | apply description_args_field].
  - intros Hne. unfold name. simpl.
    by rewrite (proj2 (String.eqb_neq _ _) Hne).
  - by rewrite get_task_description_run.
Qed.

Lemma fresh_task_then_accessed_witness :
  name App.rt
    (fst (__get__ (Task_init App.Task_ App.answer App.the_kuyruk None None None
                     None None) App.felix App.Cat))
  = "tasks:Cat.answer".
Proof.
  refine (proj1 (proj2 (proj2 (proj2 (fresh_task_then_accessed App.rt App.Task_
           App.answer App.the_kuyruk None None None None None App.felix App.Cat
           [] ∅ "kuyruk" App.w0)))) _).
  discriminate.
Defined.

(** ** More on Result.wait *)

Section wait_more.

Variable json_loads : string -> option Value.

(** One reply handed over by the first call of [drain_events] that is not
    idle. *)
Lemma wait_one_reply timeout now pre step body rest :
  idle now timeout now pre ->
  drained step = Delivers [body] ->
  wait json_loads Result_init timeout now (pre ++ step :: rest)
  = match _process_message json_loads Result_init body with
    | Ok self' =>
        wait_loop json_loads now timeout self' (now + total pre + took step) rest
    | Raise e => (Raised e, Result_init)
    end.
Proof.
  intros Hidle Hstep. unfold wait. rewrite wait_loop_idle by done.
  cbn [wait_loop resolve Result_init exception]. rewrite Hstep.
  cbn [deliver]. by destruct (_process_message _ _ _).
Qed.

(** [wait] returns a value only from a waiter that holds it. *)
Lemma wait_loop_returned start timeout self now script v self' :
  wait_loop json_loads start timeout self now script = (Returned v, self') ->
  resolve self' = Some (Ok v).
Proof.
  revert self now. induction script as [|step script IH]; intros self now.
  - simpl. destruct (resolve self) as [[v0|e]|] eqn:Hres; [|discriminate..].
    by intros [= <- <-].
  - simpl. destruct (resolve self) as [[v0|e]|] eqn:Hres;
      [by intros [= <- <-] | discriminate |].
    destruct (drained step) as [bodies|e].
    + destruct (deliver json_loads self bodies) as [[e|] s1]; [discriminate|].
      apply IH.
    + destruct (exc_class e); try discriminate.
      * destruct (_ <? _); [discriminate | apply IH].
      * case_bool_decide; [apply IH | discriminate].
Qed.

Lemma wait_loop_resolved start timeout self now script o :
  resolve self = Some o ->
  wait_loop json_loads start timeout self now script
  = (match o with Ok v => Returned v | Raise e => Raised e end, self).
Proof. intros Hres. destruct script; simpl; rewrite Hres; by destruct o. Qed.

End wait_more.

(** X14: a reply that cannot be used ends the wait with the decoder's own
    error and leaves the waiter without outcome: [ValueError] for a body
    that is not JSON, [TypeError] for JSON that is not an object, and
    [KeyError] for an object without [result], even when it carries an
    [exception]. *)
Theorem wait_unusable_reply (json_loads : string -> option Value)
    (timeout now : Z) (pre : list DrainStep) (step : DrainStep) (body : string)
    (rest : list DrainStep) :
  idle now timeout now pre ->
  drained step = Delivers [body] ->
  let outcome := wait json_loads Result_init timeout now (pre ++ step :: rest) in
  (json_loads body = None ->
   outcome = (Raised (mkExn ValueError []), Result_init))
  /\ (forall v, json_loads body = Some v -> (forall d, v <> VDict d) ->
      outcome = (Raised (mkExn TypeError []), Result_init))
  /\ (forall d, json_loads body = Some (VDict d) -> d !! "result" = None ->
      outcome = (Raised (mkExn KeyError [VStr "result"]), Result_init)).
Proof.
  intros Hidle Hstep outcome. subst outcome.
  rewrite (wait_one_reply json_loads timeout now pre step body rest Hidle Hstep).
  unfold _process_message. split; [|split].
  - by intros ->.
  - intros v -> Hv. destruct v; try done. by destruct (Hv d).
  - intros d -> Hres. simpl. by rewrite Hres.
Qed.

Lemma wait_unusable_reply_witness :
  wait App.json_loads_odd Result_init 5 0
    [App.slice_timeout; {| took := 1; drained := Delivers ["no-result"] |}]
  = (Raised (mkExn KeyError [VStr "result"]), Result_init).
Proof.
  refine (proj2 (proj2 (wait_unusable_reply App.json_loads_odd 5 0
                          [App.slice_timeout]
                          {| took := 1; drained := Delivers ["no-result"] |}
                          "no-result" [] _ eq_refl)) _ eq_refl eq_refl).
  simpl. lia.
Defined.

(** X15: what counts is whether the [exception] of a reply tests true, not
    whether it is null: with an [exception] that tests false (an empty
    object, an empty string, zero, false) [wait] returns [result]; one that
    tests true must be an object with [type], [value] and [traceback], or
    [wait] ends with [TypeError] or the [KeyError] of the first key
    missing. *)
Theorem wait_exception_payload_edges (json_loads : string -> option Value)
    (timeout now : Z) (pre : list DrainStep) (step : DrainStep) (body : string)
    (rest : list DrainStep) (d : gmap string Value) (r exc : Value) :
  idle now timeout now pre ->
  drained step = Delivers [body] ->
  json_loads body = Some (VDict d) ->
  d !! "result" = Some r ->
  d !! "exception" = Some exc ->
  let outcome :=
    fst (wait json_loads Result_init timeout now (pre ++ step :: rest)) in
  (truthy exc = false -> outcome = Returned r)
  /\ (truthy exc = true -> (forall m, exc <> VDict m) ->
      outcome = Raised (mkExn TypeError []))
  /\ (forall m, exc = VDict m -> truthy exc = true ->
      (m !! "type" = None -> outcome = Raised (mkExn KeyError [VStr "type"]))
      /\ (is_Some (m !! "type") -> m !! "value" = None ->
          outcome = Raised (mkExn KeyError [VStr "value"]))
      /\ (is_Some (m !! "type") -> is_Some (m !! "value") ->
          m !! "traceback" = None ->
          outcome = Raised (mkExn KeyError [VStr "traceback"]))).
Proof.
  intros Hidle Hstep Hjson Hres Hexc outcome. subst outcome.
  rewrite (wait_one_reply json_loads timeout now pre step body rest Hidle Hstep).
  unfold _process_message. rewrite Hjson. cbn [getitem]. rewrite Hres, Hexc.
  cbn [default from_option id].
  split; [|split].
  - intros Hfalse.
    rewrite (wait_loop_resolved json_loads _ _ _ _ _ (Ok r)); [done|].
    unfold resolve. cbn [exception result]. by rewrite Hfalse.
  - intros Htrue Hnot.
    rewrite (wait_loop_resolved json_loads _ _ _ _ _ (Raise (mkExn TypeError [])));
      [done|].
    unfold resolve. cbn [exception]. rewrite Htrue.
    destruct exc; try done. by destruct (Hnot d0).
  - intros m -> Htrue. split; [|split].
    + intros Hty.
      rewrite (wait_loop_resolved json_loads _ _ _ _ _
                 (Raise (mkExn KeyError [VStr "type"]))); [done|].
      unfold resolve. cbn [exception]. rewrite Htrue. cbn [getitem].
      by rewrite Hty.
    + intros [ty Hty] Hv.
      rewrite (wait_loop_resolved json_loads _ _ _ _ _
                 (Raise (mkExn KeyError [VStr "value"]))); [done|].
      unfold resolve. cbn [exception]. rewrite Htrue. cbn [getitem].
      by rewrite Hty, Hv.
    + intros [ty Hty] [v Hv] Htb.
      rewrite (wait_loop_resolved json_loads _ _ _ _ _
                 (Raise (mkExn KeyError [VStr "traceback"]))); [done|].
      unfold resolve. cbn [exception]. rewrite Htrue. cbn [getitem].
      by rewrite Hty, Hv, Htb.
Qed.

Lemma wait_exception_payload_edges_witness :
  fst (wait App.json_loads_odd Result_init 5 0
         [{| took := 1; drained := Delivers ["empty-exception"] |}])
  = Returned (VInt 1).
Proof.
  exact (proj1 (wait_exception_payload_edges App.json_loads_odd 5 0 []
                  {| took := 1; drained := Delivers ["empty-exception"] |}
                  "empty-exception" [] _ (VInt 1) (VDict ∅)
                  I eq_refl eq_refl eq_refl eq_refl) eq_refl).
Defined.

(** X16: a value [wait] has returned stays: waiting again on the same
    waiter returns the same value at once, whatever the timeout, the clock
    and the channel, and leaves the waiter as it is. *)
Theorem wait_again_returns_same (json_loads : string -> option Value)
    (self : Result) (timeout now : Z) (script : list DrainStep) (v : Value)
    (self' : Result) :
  wait json_loads self timeout now script = (Returned v, self') ->
  forall timeout' now' script',
    wait json_loads self' timeout' now' script' = (Returned v, self').
Proof.
  intros Hwait timeout' now' script'. unfold wait in *.
  apply wait_loop_returned in Hwait as Hres.
  by rewrite (wait_loop_resolved json_loads _ _ _ _ _ (Ok v)).
Qed.

Lemma wait_again_returns_same_witness :
  exists self',
    wait App.json_loads Result_init 5 0
      [{| took := 1; drained := Delivers ["fine"] |}] = (Returned (VInt 42), self')
    /\ wait App.json_loads self' 0 100 [App.reset] = (Returned (VInt 42), self').
Proof.
  eexists. split; [reflexivity|].
  exact (wait_again_returns_same App.json_loads Result_init 5 0
           [{| took := 1; drained := Delivers ["fine"] |}] (VInt 42) _ eq_refl
           0 100 [App.reset]).
Defined.

(** X17: the deadline is looked at only when a receive times out.  As long
    as every receive is interrupted ([EINTR]), [wait] neither returns nor
    raises, whatever the timeout and however long the receives take. *)
Theorem wait_interrupts_never_time_out (json_loads : string -> option Value)
    (timeout now : Z) (steps : list DrainStep) :
  Forall (fun step =>
            exists e, drained step = Throws e
                      /\ exc_class e = socket_error
                      /\ errno_of e = Some EINTR) steps ->
  wait json_loads Result_init timeout now steps = (Blocked, Result_init).
Proof.
  intros Hall. unfold wait. apply wait_loop_blocked.
  generalize now at 2. induction Hall as [|step steps (e & He & Hc & Hn) _ IH];
    intros now'; simpl; [done|].
  rewrite He, Hc. split; [done | apply IH].
Qed.

Lemma wait_interrupts_never_time_out_witness :
  wait App.json_loads Result_init (-1) 0
    [{| took := 100; drained := drained App.interrupted |}; App.interrupted]
  = (Blocked, Result_init).
Proof.
  apply (wait_interrupts_never_time_out App.json_loads (-1) 0).
  repeat constructor; eexists; repeat split; reflexivity.
Defined.

(** ** Handlers around the send *)

(** X18: a [task_presend] handler that raises stops the call before
    anything else happens: the exception comes out of [__call__], and
    neither the wrapped function nor the transport has been touched. *)
Theorem presend_handler_raises (rt : Runtime) (self : Task)
    (args : list Value) (kwargs : gmap string Value) (w : World) (e : Exn) :
  (forall em, em_signal em = task_presend -> receivers rt em = Some e) ->
  __call__ rt self args kwargs w
  = (Raise e,
     push w (emissions self task_presend args kwargs NoExtra
               [SenderKuyruk (kuyruk self)])).
Proof.
  intros Hpre. unfold __call__, bind.
  rewrite (send_signal_raise_first rt task_presend self args kwargs true NoExtra
             (SenderKuyruk (kuyruk self)) _ e w eq_refl) by (by apply Hpre).
  reflexivity.
Qed.

Lemma presend_handler_raises_witness :
  trace (snd (__call__ (App.rt_raising task_presend App.boom)
                (App.task_of App.answer false None) [] ∅ App.w0))
  = emissions (App.task_of App.answer false None) task_presend [] ∅ NoExtra
      [SenderKuyruk App.the_kuyruk].
Proof.
  rewrite (presend_handler_raises (App.rt_raising task_presend App.boom)
             (App.task_of App.answer false None) [] ∅ App.w0 App.boom).
  - reflexivity.
  - intros em Hem. simpl. by rewrite bool_decide_eq_true_2.
Defined.

(** X19: a [task_postsend] handler that raises after a queued send takes
    the handle away from the caller: the exception comes out of [__call__]
    although the descriptor has been sent and the channel released. *)
Theorem postsend_handler_raises (rt : Runtime) (self : Task)
    (args : list Value) (kwargs : gmap string Value) (w : World) (e : Exn)
    (a : Value) :
  (forall em, em_signal em = task_postsend -> receivers rt em = Some e) ->
  (forall em, em_signal em <> task_postsend -> receivers rt em = None) ->
  eager self || EAGER (kuyruk self) = false ->
  channel_fails rt = None ->
  (forall n d, send_fails rt n d = None) ->
  description_args self args = Ok a ->
  exists w' before n desc,
    __call__ rt self args kwargs w = (Raise e, w')
    /\ trace w' = trace w ++ before
         ++ [QueueSend n desc; ChannelExit]
         ++ emissions self task_postsend args
              (delete "kuyruk_local" (delete "kuyruk_host" kwargs)) NoExtra
              [SenderTask self]
    /\ desc !! "id" = Some (VStr (uuid_hex rt (uuids w)))
    /\ desc !! "args" = Some a.
Proof.
  intros Hpost Hother Heager Hchan Hsend Hargs. unfold __call__, bind.
  rewrite Heager.
  rewrite (send_signal_quiet_for rt task_presend)
    by (intros em Hem; apply Hother; by rewrite Hem).
  unfold pop. simpl. rewrite send_to_queue_run by done. rewrite Hargs. simpl.
  rewrite Hsend. simpl.
  rewrite (send_signal_raise_first rt task_postsend self args _ false NoExtra
             (SenderTask self) _ e _ eq_refl) by (by apply Hpost).
  eexists _, (emissions self task_presend args kwargs NoExtra (senders self true)
              ++ [ChannelEnter; QueueNew _ _]), _, _.
  split; [reflexivity|].
  split; [cbn [trace push]; rewrite <- !app_assoc; reflexivity|].
  split; [apply description_id | apply description_args_field].
Qed.

Lemma postsend_handler_raises_witness :
  exists w' n desc,
    __call__ (App.rt_raising task_postsend App.boom)
      (App.task_of App.answer false None) [] ∅ App.w0 = (Raise App.boom, w')
    /\ QueueSend n desc ∈ trace w'.
Proof.
  destruct (postsend_handler_raises (App.rt_raising task_postsend App.boom)
              (App.task_of App.answer false None) [] ∅ App.w0 App.boom
              (VTuple []))
    as (w' & before & n & desc & Hrun & Htr & _).
  - intros em Hem. simpl. by rewrite bool_decide_eq_true_2.
  - intros em Hem. simpl. by rewrite bool_decide_eq_false_2.
  - reflexivity.
  - reflexivity.
  - reflexivity.
  - reflexivity.
  - exists w', n, desc. split; [exact Hrun|]. rewrite Htr.
    rewrite !elem_of_app. right. right. left. apply list_elem_of_here.
Defined.
